(** * go.fracserv: the fractal tile server and the [fractal] support package

    A shallow embedding of [src/fractal/fractal.go] (request options, the
    pixel-to-fractal-space navigator, the HSV colour mapper) and of
    [src/fracserv/fracserv.go] (cache-key normalisation, disk persistence of
    cached tiles, the render handler), together with the properties the
    design document states about them.

    Conventions of the embedding:
    - a Go [int] is a 64-bit two's-complement integer, carried as a [Z] with
      the wrap-around of [+] written out ([int_add]);
    - a Go [float64] is an IEEE-754 binary64 value, carried as a
      [spec_float] with precision 53 and maximal exponent 1024; [/], [*]
      and [-] are the correctly rounded operations of [SpecFloat];
      [math.Floor] and [math.Mod], whose results are exact, are given by
      their mathematical meaning; float-to-integer conversions truncate;
    - a Go [string] is carried as the sequence of runes that [range]
      yields, which is the view [strings.Map] works on;
    - [log.Printf] appends to a list of log lines; the calls of package
      [os] act on a finite map from paths to directories and regular files;
      an [http.ResponseWriter] is a record of header map, status and body;
    - functions of the Go standard library whose results are not fixed by
      the above ([math.Pow], [strconv.Atoi], [strconv.ParseFloat],
      [path.Dir], [png.Encode], [Time.Format]) and the packages of the
      repository that the handler only calls (the generators, the tile
      cache) are parameters of the sections that use them;
    - [go savePngFromCache(key)] adds the key to the list of started
      goroutines; running one of them is a separate step. *)

From Stdlib Require Import ZArith Lia Bool List.
From Stdlib Require Import Floats.SpecFloat Strings.Ascii.
From stdpp Require Import base option list gmap strings.

Open Scope Z_scope.

(** ** Go base types *)

Module Go.

(** *** int *)

Definition int_min : Z := - 2 ^ 63.
Definition int_max : Z := 2 ^ 63 - 1.

Definition int_range (x : Z) : Prop := int_min <= x <= int_max.

(** Reduction of a mathematical integer to the 64-bit signed range. *)
Definition int_wrap (x : Z) : Z := (x + 2 ^ 63) mod 2 ^ 64 - 2 ^ 63.

(** [x + y] on [int]. *)
Definition int_add (x y : Z) : Z := int_wrap (x + y).

(** *** rune and string *)

Definition rune := Z.
Abbreviation gostring := (list rune).

Definition rune_of_ascii (a : Ascii.ascii) : rune := Z.of_N (Ascii.N_of_ascii a).

(** A string literal of the source, as its runes (ASCII literals only). *)
Definition str (s : string) : gostring :=
  map rune_of_ascii (String.list_ascii_of_string s).

(** [strings.Map(mapping, s)]: every rune of [s] is replaced by its image;
    a negative image drops the rune. *)
Definition strings_Map (mapping : rune -> rune) (s : gostring) : gostring :=
  flat_map (fun c => let r := mapping c in if r <? 0 then [] else [r]) s.

(** *** float64 *)

Definition prec : Z := 53.
Definition emax : Z := 1024.

Definition float64 := spec_float.

Definition f64_div : float64 -> float64 -> float64 := SFdiv prec emax.
Definition f64_mul : float64 -> float64 -> float64 := SFmul prec emax.
Definition f64_sub : float64 -> float64 -> float64 := SFsub prec emax.

(** [float64(x)] for an integer [x]: the nearest binary64 value, ties to
    even.  It is also the value of an integer constant used as a float. *)
Definition float64_of_int (x : Z) : float64 := binary_normalize prec emax x 0 false.

(** The binary64 value [m * 2^e] (rounded if it is not representable). *)
Definition f64 (m e : Z) : float64 := binary_normalize prec emax m e false.

(** The float [(-1)^s * m * 2^e] for [0 <= m], without rounding: the
    mantissa is shifted left to its canonical position.  Used where the
    mathematical result is known to be representable. *)
Definition exact_float (s : bool) (m e : Z) : float64 :=
  match m with
  | Zpos p =>
      let '(m', e') := shl_align p e (fexp prec emax (Zpos (digits2_pos p) + e)) in
      S754_finite s m' e'
  | _ => S754_zero s
  end.

(** [math.Floor(x)]: the greatest integral value not above [x];
    [Floor(±0) = ±0], [Floor(±Inf) = ±Inf], [Floor(NaN) = NaN]. *)
Definition math_Floor (x : float64) : float64 :=
  match x with
  | S754_finite s m e =>
      if 0 <=? e then x
      else
        let n := Z.shiftr (cond_Zopp s (Zpos m)) (- e) in
        exact_float s (Z.abs n) 0
  | _ => x
  end.

(** [math.Mod(x, y)]: the floating-point remainder of [x/y], of magnitude
    less than [y] and with the sign of [x]; [Mod(±Inf, y) = NaN],
    [Mod(NaN, y) = NaN], [Mod(x, 0) = NaN], [Mod(x, ±Inf) = x],
    [Mod(x, NaN) = NaN].  The remainder of two floats is a float. *)
Definition math_Mod (x y : float64) : float64 :=
  match x, y with
  | S754_nan, _ | _, S754_nan => S754_nan
  | S754_infinity _, _ => S754_nan
  | _, S754_zero _ => S754_nan
  | _, S754_infinity _ => x
  | S754_zero _, S754_finite _ _ _ => x
  | S754_finite sx mx ex, S754_finite _ my ey =>
      let e0 := Z.min ex ey in
      let X := Zpos mx * 2 ^ (ex - e0) in
      let Y := Zpos my * 2 ^ (ey - e0) in
      exact_float sx (X mod Y) e0
  end.

(** The result of a float-to-integer conversion whose value does not fit:
    the language leaves it to the implementation; amd64 yields the
    "integer indefinite" value. *)
Definition int_indefinite : Z := int_min.

(** [int(x)]: the fraction is discarded (truncation towards zero). *)
Definition int_of_float64 (x : float64) : Z :=
  match x with
  | S754_zero _ => 0
  | S754_finite s m e =>
      let a := if 0 <=? e then Zpos m * 2 ^ e else Zpos m / 2 ^ (- e) in
      let n := cond_Zopp s a in
      if (int_min <=? n) && (n <=? int_max) then n else int_indefinite
  | _ => int_indefinite
  end.

(** [uint8(x)]: truncation, then the low eight bits. *)
Definition uint8_of_float64 (x : float64) : Z := int_of_float64 x mod 256.

(** *** time *)

(** A [time.Time] as nanoseconds since the epoch; a [time.Duration] as
    nanoseconds. *)
Definition Time := Z.
Definition Duration := Z.
Definition time_Hour : Duration := 3600 * 1000000000.
Definition Time_Add (t : Time) (d : Duration) : Time := t + d.

End Go.

Export Go.

Declare Scope f64_scope.
Delimit Scope f64_scope with f64.
Infix "/" := f64_div : f64_scope.
Infix "*" := f64_mul : f64_scope.
Infix "-" := f64_sub : f64_scope.

(** ** Package fractal *)

Module fractal.

(** *** image.Point *)

Record Point := Pt { X : Z; Y : Z }.

(** *** DefaultNavigator *)

Record DefaultNavigator := mkNav { z : float64; offset : Point }.

Definition NewDefaultNavigator (z : float64) (xoff yoff : Z) : DefaultNavigator :=
  mkNav z (Pt xoff yoff).

Definition GetTranslate (n : DefaultNavigator) : Point := offset n.

Definition Translate (n : DefaultNavigator) (off : Point) : DefaultNavigator :=
  mkNav (z n) off.

Definition Zoom (n : DefaultNavigator) (z' : float64) : DefaultNavigator :=
  mkNav z' (offset n).

Definition GetZoom (n : DefaultNavigator) : float64 := z n.

Section Navigator.

(** [math.Pow]. *)
Variable Pow : float64 -> float64 -> float64.

Definition Transform (n : DefaultNavigator) (p : Point) : float64 * float64 :=
  let x := int_add (X p) (X (offset n)) in
  let y := int_add (Y p) (Y (offset n)) in
  let z := Pow (float64_of_int 2) (z n) in
  ((float64_of_int x / z)%f64, (float64_of_int y / z)%f64).

End Navigator.

(** *** Log lines

    [log.Printf] appends a line to the process log; the embedding keeps the
    lines a call produced, with the arguments that identify them. *)

Inductive logline :=
| LogParseFailed (k v : gostring)
| LogNotInCache (cacheKey : gostring)
| LogCreatingDir (d : gostring)
| LogFileExists (cacheKey cachefn : gostring)
| LogOpenFailed (cachefn : gostring)
| LogChtimesFailed (cachefn : gostring).

(** *** Options *)

(** [url.Values]: a map from a key to the list of its values. *)
Record Options := mkOptions { Values : gmap gostring (list gostring) }.

(** [url.Values.Get]: the first value of the key, the empty string when the
    key has no value. *)
Definition Get (o : Options) (k : gostring) : gostring :=
  match Values o !! k with
  | Some (v :: _) => v
  | _ => []
  end.

Section OptionAccessors.

(** The error values of [strconv]. *)
Variable error : Type.
(** [strconv.Atoi]: the parsed [int], or the error. *)
Variable Atoi : gostring -> Z + error.
(** [strconv.ParseFloat(s, 64)]: the parsed [float64], or the error. *)
Variable ParseFloat64 : gostring -> float64 + error.

(** Converts value with key 'k' to int, in absence or failure 'd' is
    returned. *)
Definition GetIntDefault (o : Options) (k : gostring) (d : Z) : Z * list logline :=
  match Atoi (Get o k) with
  | inr _ => (d, [LogParseFailed k (Get o k)])
  | inl v => (v, [])
  end.

Definition GetFloat64Default (o : Options) (k : gostring) (d : float64)
  : float64 * list logline :=
  match ParseFloat64 (Get o k) with
  | inr _ => (d, [LogParseFailed k (Get o k)])
  | inl v => (v, [])
  end.

End OptionAccessors.

(** *** HSVToRGBA *)

(** [color.RGBA]: four [uint8] channels. *)
Record RGBA := mkRGBA { R : Z; G : Z; B : Z; A : Z }.

Definition RGB (r g b : float64) : RGBA :=
  let c255 := float64_of_int 255 in
  mkRGBA (uint8_of_float64 (r * c255)%f64)
         (uint8_of_float64 (g * c255)%f64)
         (uint8_of_float64 (b * c255)%f64)
         255.

(** The sector index [hi] of a hue. *)
Definition sector (h : float64) : Z :=
  int_of_float64
    (math_Mod (math_Floor (h / float64_of_int 60)%f64) (float64_of_int 6)).

Definition HSVToRGBA (h s v : float64) : RGBA :=
  let c1 := float64_of_int 1 in
  let c60 := float64_of_int 60 in
  let hi := int_of_float64 (math_Mod (math_Floor (h / c60)%f64) (float64_of_int 6)) in
  let f := ((h / c60) - math_Floor (h / c60))%f64 in
  let p := (v * (c1 - s))%f64 in
  let q := (v * (c1 - (f * s)))%f64 in
  let t := (v * (c1 - ((c1 - f) * s)))%f64 in
  match hi with
  | 0 => RGB v t p
  | 1 => RGB q v p
  | 2 => RGB p v t
  | 3 => RGB p q v
  | 4 => RGB t p v
  | 5 => RGB v p q
  | _ => mkRGBA 0 0 0 0
  end.

End fractal.

(** ** Package main (fracserv) *)

Module fracserv.

Import fractal.

Abbreviation bytes := (list Byte.byte).

(** *** cachedPng *)

Record cachedPng := mkCachedPng { Timestamp : Time; Bytes : bytes }.

Definition Size (c : cachedPng) : Z := Z.of_nat (length (Bytes c)).

(** *** The tile cache

    Modelled from the spec: package [cache] is imported by the server but is
    not among the sources.  The design document gives it two operations,
    [get(key) -> (entry, found)] and [add(key, entry)] (insert or replace),
    and one guarantee: [get] immediately after [add] for the same key
    returns the inserted entry unchanged.  Eviction of other entries is left
    open, so the interface fixes nothing else. *)
Class Cache (C : Type) := {
  cache_Get : C -> gostring -> option cachedPng;
  cache_Add : C -> gostring -> cachedPng -> C;
  cache_Get_Add : forall c k e, cache_Get (cache_Add c k e) k = Some e
}.

(** Modelled from the spec: the tile cache as a mapping from cache key to
    cache entry with at most one entry per key, where inserting an existing
    key replaces the mapping.  No bound is configured, so nothing is
    evicted. *)
#[global] Instance MapCache : Cache (gmap gostring cachedPng) := {
  cache_Get c k := c !! k;
  cache_Add c k e := <[k := e]> c;
  cache_Get_Add c k e := lookup_insert_eq c k e
}.

(** *** Cache keys *)

Definition cleanup (r : rune) : rune :=
  if r =? rune_of_ascii "?"%char then rune_of_ascii "/"%char
  else if r =? rune_of_ascii "&"%char then rune_of_ascii ","%char
  else r.

Definition fsNameFromURL (url : gostring) : gostring := strings_Map cleanup url.

(** [cachefn := cacheDir + cacheKey] in [savePngFromCache]. *)
Definition cachefn (cacheDir cacheKey : gostring) : gostring := cacheDir ++ cacheKey.

(** *** The file system

    The calls of package [os] act on a tree of directories and regular
    files, addressed by path.  A regular file has its content and its
    modification and access times. *)

Record file := mkFile { f_bytes : bytes; f_mtime : Time; f_atime : Time }.

Inductive node :=
| Dir
| File (f : file).

Abbreviation filesystem := (gmap gostring node).

Section Persistence.

Context {C : Type} `{Cache C}.

(** [path.Dir]: all but the last element of a path.  The operating system
    resolves the parent directory of a path the same way. *)
Variable path_Dir : gostring -> gostring.

(** [os.Stat(p)] succeeds ([err == nil]) when something exists at [p]. *)
Definition os_Stat (fs : filesystem) (p : gostring) : bool :=
  bool_decide (is_Some (fs !! p)).

(** [os.Mkdir(d, 0700)] creates one directory; it fails when [d] exists or
    its parent is not a directory.  The caller drops the error. *)
Definition os_Mkdir (fs : filesystem) (d : gostring) : filesystem :=
  match fs !! d, fs !! path_Dir d with
  | None, Some Dir => <[d := Dir]> fs
  | _, _ => fs
  end.

(** [os.OpenFile(p, O_CREATE|O_WRONLY, 0644)]: opens the regular file at
    [p] for writing, creating it empty (stamped with the current time)
    when it is missing and its parent is a directory; [None] is the
    error. *)
Definition os_OpenFile (fs : filesystem) (p : gostring) (now : Time)
  : option filesystem :=
  match fs !! p with
  | Some (File _) => Some fs
  | Some Dir => None
  | None =>
      match fs !! path_Dir p with
      | Some Dir => Some (<[p := File (mkFile [] now now)]> fs)
      | _ => None
      end
  end.

(** [outf.Write(b)] on a file just opened without [O_TRUNC] or [O_APPEND]:
    the bytes overwrite the content from offset 0; bytes beyond them stay.
    The modification time becomes the current time. *)
Definition file_Write (fs : filesystem) (p : gostring) (b : bytes) (now : Time)
  : filesystem :=
  match fs !! p with
  | Some (File f) =>
      <[p := File (mkFile (b ++ drop (length b) (f_bytes f)) now (f_atime f))]> fs
  | _ => fs
  end.

(** [os.Chtimes(p, atime, mtime)]; [false] is the error. *)
Definition os_Chtimes (fs : filesystem) (p : gostring) (atime mtime : Time)
  : filesystem * bool :=
  match fs !! p with
  | Some (File f) => (<[p := File (mkFile (f_bytes f) mtime atime)]> fs, true)
  | Some Dir => (fs, true)
  | None => (fs, false)
  end.

Variable cacheDir : gostring.

(** [savePngFromCache]: the file system after the call and the lines it
    logged.  [now] is the time at which the file is written. *)
Definition savePngFromCache (pngCache : C) (fs : filesystem) (now : Time)
           (cacheKey : gostring) : filesystem * list logline :=
  match cache_Get pngCache cacheKey with
  | None => (fs, [LogNotInCache cacheKey])
  | Some cp =>
      let fn := cachefn cacheDir cacheKey in
      let d := path_Dir fn in
      let '(fs1, log1) :=
        if os_Stat fs d then (fs, [])
        else (os_Mkdir fs d, [LogCreatingDir d]) in
      if os_Stat fs1 fn then (fs1, log1 ++ [LogFileExists cacheKey fn])
      else
        match os_OpenFile fs1 fn now with
        | None => (fs1, log1 ++ [LogOpenFailed fn])
        | Some fs2 =>
            let fs3 := file_Write fs2 fn (Bytes cp) now in
            let '(fs4, ok) := os_Chtimes fs3 fn (Timestamp cp) (Timestamp cp) in
            (fs4, log1 ++ (if ok then [] else [LogChtimesFailed fn]))
        end
  end.

End Persistence.

(** *** HTTP requests and responses *)

(** The parts of [http.Request] the handler reads: [req.URL.RequestURI()]
    and [req.URL.Query()]. *)
Record Request := mkRequest {
  RequestURI : gostring;
  Query : gmap gostring (list gostring)
}.

(** An [http.ResponseWriter]: the header map, the status line once it is
    written (with the header map as it was sent), and the body written so
    far. *)
Record ResponseWriter := mkRW {
  Header : gmap gostring gostring;
  wrote : option (Z * gmap gostring gostring);
  body : bytes
}.

Definition newResponseWriter : ResponseWriter := mkRW ∅ None [].

Definition Header_Set (w : ResponseWriter) (k v : gostring) : ResponseWriter :=
  mkRW (<[k := v]> (Header w)) (wrote w) (body w).

(** [w.WriteHeader(code)]: only the first call counts. *)
Definition WriteHeader (w : ResponseWriter) (code : Z) : ResponseWriter :=
  match wrote w with
  | Some _ => w
  | None => mkRW (Header w) (Some (code, Header w)) (body w)
  end.

Definition StatusOK : Z := 200.
Definition StatusInternalServerError : Z := 500.

(** [w.Write(b)]: writes the status line with [StatusOK] first if no status
    was written. *)
Definition Write (w : ResponseWriter) (b : bytes) : ResponseWriter :=
  let w1 := WriteHeader w StatusOK in
  mkRW (Header w1) (wrote w1) (body w1 ++ b).

(** What the client receives once the handler has returned. *)
Record Response := mkResponse {
  resp_status : Z;
  resp_header : gmap gostring gostring;
  resp_body : bytes
}.

Definition response_of (w : ResponseWriter) : Response :=
  match wrote w with
  | Some (code, h) => mkResponse code h (body w)
  | None => mkResponse StatusOK (Header w) (body w)
  end.

(** *** The render handler *)

(** The calls the handler makes to its collaborators, in order. *)
Inductive call :=
| CallFactory (fracType : gostring) (o : Options)
| CallEncode
| CallCacheGet (cacheKey : gostring)
| CallCacheAdd (cacheKey : gostring) (e : cachedPng)
| CallGoSave (cacheKey : gostring).

(** The generator invocations and the cache interactions in a trace. *)
Definition is_factory_call (c : call) : bool :=
  match c with
  | CallFactory _ _ => true
  | _ => false
  end.

Definition factory_calls (cs : list call) : nat :=
  length (List.filter is_factory_call cs).

Definition is_cache_call (c : call) : bool :=
  match c with
  | CallCacheGet _ | CallCacheAdd _ _ | CallGoSave _ => true
  | _ => false
  end.

(** The process state around the handler: the tile cache, the disk, the
    [savePngFromCache] goroutines started and not yet run, and the calls
    made so far. *)
Record world (C : Type) := mkWorld {
  pngCache : C;
  disk : filesystem;
  goroutines : list gostring;
  calls : list call
}.
Arguments mkWorld {C}.
Arguments pngCache {C}.
Arguments disk {C}.
Arguments goroutines {C}.
Arguments calls {C}.

Section Handler.

Context {C : Type} `{Cache C}.

(** [fractal.Fractal], an [image.Image]. *)
Variable Image : Type.
(** Error values, and [err.Error()]. *)
Variable error : Type.
Variable Error_text : error -> gostring.
(** The generator registry: the constructor registered under a name. *)
Variable factory : gostring -> option (Options -> Image + error).
(** [png.Encode(w, i)]: the bytes it wrote to [w], and its error result. *)
Variable png_Encode : Image -> bytes * option error.
(** [t.Format(http.TimeFormat)]. *)
Variable Time_Format : Time -> gostring.
(** The bytes of a string. *)
Variable string_bytes : gostring -> bytes.
(** [path.Dir]. *)
Variable path_Dir : gostring -> gostring.

(** The flags [-cacheDir] and [-disableCache]. *)
Variable cacheDir : gostring.
Variable disableCache : bool.

Definition record_call (st : world C) (c : call) : world C :=
  mkWorld (pngCache st) (disk st) (goroutines st) (calls st ++ [c]).

(** [http.Error(w, msg, code)]. *)
Definition http_Error (w : ResponseWriter) (msg : gostring) (code : Z)
  : ResponseWriter :=
  let w1 := Header_Set w (str "Content-Type") (str "text/plain; charset=utf-8") in
  let w2 := WriteHeader w1 code in
  Write w2 (string_bytes (msg ++ str (String (ascii_of_nat 10) EmptyString))).

(** The tail of [drawFractal]: the three headers and the body. *)
Definition serve (w : ResponseWriter) (cp : cachedPng) : ResponseWriter :=
  let w1 := Header_Set w (str "Content-Type") (str "image/png") in
  let w2 := Header_Set w1 (str "Last-Modified") (Time_Format (Timestamp cp)) in
  let w3 := Header_Set w2 (str "Expires")
              (Time_Format (Time_Add (Timestamp cp) time_Hour)) in
  Write w3 (Bytes cp).

(** [drawFractal(w, req, fracType)]; [now] is what [time.Now()] returns.
    [None] is the panic of calling the missing entry of [factory]. *)
Definition drawFractal (st : world C) (w : ResponseWriter) (req : Request)
           (fracType : gostring) (now : Time) : option (world C * ResponseWriter) :=
  let opts := mkOptions (Query req) in
  if disableCache then
    match factory fracType with
    | None => None
    | Some newFractal =>
        let st1 := record_call st (CallFactory fracType opts) in
        match newFractal opts with
        | inr err =>
            Some (st1, http_Error w (Error_text err) StatusInternalServerError)
        | inl i =>
            let '(b, _) := png_Encode i in
            Some (record_call st1 CallEncode, Write w b)
        end
    end
  else
    let cacheKey := fsNameFromURL (RequestURI req) in
    let st0 := record_call st (CallCacheGet cacheKey) in
    match cache_Get (pngCache st0) cacheKey with
    | Some cp => Some (st0, serve w cp)
    | None =>
        match factory fracType with
        | None => None
        | Some newFractal =>
            let st1 := record_call st0 (CallFactory fracType opts) in
            match newFractal opts with
            | inr err =>
                Some (st1, http_Error w (Error_text err) StatusInternalServerError)
            | inl i =>
                let '(b, _) := png_Encode i in
                let cacher := mkCachedPng now b in
                let st2 := record_call st1 CallEncode in
                let st3 :=
                  mkWorld (cache_Add (pngCache st2) cacheKey cacher) (disk st2)
                          (goroutines st2)
                          (calls st2 ++ [CallCacheAdd cacheKey cacher]) in
                let st4 :=
                  mkWorld (pngCache st3) (disk st3) (goroutines st3 ++ [cacheKey])
                          (calls st3 ++ [CallGoSave cacheKey]) in
                Some (st4, serve w cacher)
            end
        end
    end.

(** One started [savePngFromCache] goroutine runs to completion at time
    [now]: the [i]-th pending one. *)
Definition run_goroutine (st : world C) (i : nat) (now : Time) : world C :=
  match goroutines st !! i with
  | None => st
  | Some cacheKey =>
      let '(fs', _) := savePngFromCache path_Dir cacheDir (pngCache st) (disk st)
                                        now cacheKey in
      mkWorld (pngCache st) fs' (delete i (goroutines st)) (calls st)
  end.

End Handler.

End fracserv.

(** ** Package main: pages and routing *)

Module fracserv_pages.

Import fractal fracserv.

(** The data a template is executed with: [nil], or the [factory] map. *)
Inductive template_data := NoData | FactoryData.

Section Pages.

Context {C : Type} `{Cache C}.

Variable Image : Type.
Variable error : Type.
Variable Error_text : error -> gostring.
Variable factory : gostring -> option (Options -> Image + error).
Variable png_Encode : Image -> bytes * option error.
Variable Time_Format : Time -> gostring.
Variable string_bytes : gostring -> bytes.
Variable disableCache : bool.

(** [html/template]: a parsed template; [template.ParseFiles(name)]; and
    [t.Execute(w, data)], given by the successive writes it makes to [w]
    and its error result. *)
Variable Template : Type.
Variable ParseFiles : gostring -> Template + error.
Variable Execute : Template -> template_data -> list bytes * option error.

(** The writes of [t.Execute(w, data)], one [w.Write] each. *)
Definition write_all (w : ResponseWriter) (chunks : list bytes) : ResponseWriter :=
  fold_left Write chunks w.

Definition drawFractalPage (w : ResponseWriter) (req : Request) (fracType : gostring)
  : ResponseWriter :=
  match ParseFiles (str "templates/" ++ fracType ++ str ".html") with
  | inr err => http_Error string_bytes w (Error_text err) StatusInternalServerError
  | inl t =>
      let '(chunks, err) := Execute t NoData in
      let w1 := write_all w chunks in
      match err with
      | Some e => http_Error string_bytes w1 (Error_text e) StatusInternalServerError
      | None => w1
      end
  end.

(** [IndexServer(w, req)], with [req.URL.Path] passed beside the request.
    [fracType := req.URL.Path[1:]] drops the first character of the path,
    a single byte as the leading slash is, and panics on the empty path
    ([None]). *)
Definition IndexServer (st : world C) (w : ResponseWriter) (Path : gostring)
           (req : Request) (now : Time) : option (world C * ResponseWriter) :=
  match Path with
  | [] => None
  | _ :: fracType =>
      if decide (fracType <> []) then
        if decide (Query req <> ∅) then
          drawFractal Image error Error_text factory png_Encode Time_Format
                      string_bytes disableCache st w req fracType now
        else Some (st, drawFractalPage w req fracType)
      else
        match ParseFiles (str "templates/index.html") with
        | inr err =>
            Some (st, http_Error string_bytes w (Error_text err)
                                 StatusInternalServerError)
        | inl t =>
            let '(chunks, err) := Execute t FactoryData in
            let w1 := write_all w chunks in
            match err with
            | Some e =>
                Some (st, http_Error string_bytes w1 (Error_text e)
                                     StatusInternalServerError)
            | None => Some (st, w1)
            end
        end
  end.

End Pages.

End fracserv_pages.

(** ** Package fractal: the navigator test *)

Module fractal_test.

Import fractal.

(** A row of the table of [TestNavigator]: zoom, pixel, offset and the
    expected fractal-space point. *)
Record datum := mkDatum {
  d_z : float64;
  d_pix : Point;
  d_off : Point;
  d_frac : float64 * float64
}.

Definition data : list datum :=
  let F := float64_of_int in
  [ mkDatum (F 1) (Pt 0 0) (Pt 0 0) (F 0, F 0);
    mkDatum (F 1) (Pt 0 0) (Pt 4 4) (F 4, F 4);
    mkDatum (F 4) (Pt 0 0) (Pt 0 0) (F 0, F 0);
    mkDatum (F 4) (Pt 0 0) (Pt 4 4) (F 1, F 1);
    mkDatum (F 4) (Pt 4 4) (Pt 0 0) (F 1, F 1);
    mkDatum (F 4) (Pt 4 4) (Pt 4 4) (F 2, F 2) ].

(** A call of [t.Errorf]: the row, the expected and the obtained value. *)
Inductive failure :=
| FailX (d : datum) (expected got : float64)
| FailY (d : datum) (expected got : float64).

Section Test.

Variable Pow : float64 -> float64 -> float64.

(** The body of the loop; [!=] is the comparison of [float64]. *)
Definition check (d : datum) : list failure :=
  let nav := mkNav (d_z d) (Pt (X (d_off d)) (Y (d_off d))) in
  let '(transX, transY) := Transform Pow nav (Pt (X (d_pix d)) (Y (d_pix d))) in
  (if negb (SFeqb transX (fst (d_frac d)))
   then [FailX d (fst (d_frac d)) transX] else []) ++
  (if negb (SFeqb transY (snd (d_frac d)))
   then [FailY d (snd (d_frac d)) transY] else []).

(** [TestNavigator]: the failures it reports; the test passes when there
    are none. *)
Definition TestNavigator : list failure := flat_map check data.

End Test.

End fractal_test.

(** ** Reference instances of the library parameters

    Concrete functions that meet the contracts assumed of the standard
    library, used to show that the assumptions can be met and to evaluate
    the embedding on concrete inputs. *)

Module Reference.

Import fractal.

(** [x ** k] for an integral exponent, by repeated multiplication; for
    [x = 2] every product is exact.  Fractional exponents are outside this
    instance. *)
Definition Pow_integral (x y : float64) : float64 :=
  let k := int_of_float64 y in
  if SFeqb (float64_of_int k) y then
    let p := Nat.iter (Z.to_nat (Z.abs k)) (f64_mul x) (float64_of_int 1) in
    if 0 <=? k then p else (float64_of_int 1 / p)%f64
  else S754_nan.

Inductive parse_error := ErrSyntax | ErrRange.

Fixpoint digits_value (acc : Z) (s : gostring) : option Z :=
  match s with
  | [] => Some acc
  | c :: s' =>
      if (48 <=? c) && (c <=? 57) then digits_value (10 * acc + (c - 48)) s'
      else None
  end.

(** Decimal integers with an optional sign, in the range of [int]. *)
Definition Atoi_decimal (s : gostring) : Z + parse_error :=
  let '(neg, ds) :=
    match s with
    | c :: s' =>
        if c =? 45 then (true, s') else if c =? 43 then (false, s') else (false, s)
    | [] => (false, [])
    end in
  match ds with
  | [] => inr ErrSyntax
  | _ =>
      match digits_value 0 ds with
      | None => inr ErrSyntax
      | Some v =>
          let n := if neg then - v else v in
          if (int_min <=? n) && (n <=? int_max) then inl n else inr ErrRange
      end
  end.

(** Floats written as decimal integers. *)
Definition ParseFloat_decimal (s : gostring) : float64 + parse_error :=
  match Atoi_decimal s with
  | inl n => inl (float64_of_int n)
  | inr e => inr e
  end.

(** The directory part of a slash-separated path: everything before the
    last slash; the root for a path directly under it; [.] for a path
    without slash.  It agrees with [path.Dir] on clean paths. *)
Fixpoint after_slash (p : gostring) : option gostring :=
  match p with
  | [] => None
  | c :: r => if c =? rune_of_ascii "/"%char then Some r else after_slash r
  end.

Definition dirname (p : gostring) : gostring :=
  match after_slash (rev p) with
  | None => str "."
  | Some [] => str "/"
  | Some r => rev r
  end.

End Reference.

(** ** The fixture table of the design document

    The rows [(zoom, offset, pixel) -> result] as the document lists them
    for the navigator. *)
Definition spec_fixture_table (Pow : float64 -> float64 -> float64) : Prop :=
  let T zoom off px :=
    fractal.Transform Pow (fractal.mkNav (float64_of_int zoom) off) px in
  let P := fractal.Pt in
  T 1 (P 0 0) (P 0 0) = (float64_of_int 0, float64_of_int 0) /\
  T 1 (P 4 4) (P 0 0) = (float64_of_int 4, float64_of_int 4) /\
  T 4 (P 0 0) (P 0 0) = (float64_of_int 0, float64_of_int 0) /\
  T 4 (P 0 0) (P 4 4) = (f64 1 (-2), f64 1 (-2)) /\
  T 4 (P 4 4) (P 0 0) = (f64 1 (-2), f64 1 (-2)) /\
  T 4 (P 4 4) (P 4 4) = (f64 1 (-1), f64 1 (-1)).

(** ** Auxiliary notions for the statements *)

(** The options of the query [z=12&z=7&c=x]. *)
Definition sample_options : fractal.Options :=
  fractal.mkOptions (<[str "z" := [str "12"; str "7"]]> (<[str "c" := [str "x"]]> ∅)).

(** The first step of [savePngFromCache]: make the directory if [Stat]
    fails on it. *)
Definition ensure_dir (path_Dir : gostring -> gostring)
           (fs : fracserv.filesystem) (d : gostring) : fracserv.filesystem :=
  if fracserv.os_Stat fs d then fs else fracserv.os_Mkdir path_Dir fs d.

(** The file [fn] can be created: its directory exists, or is missing and
    can be made by the one [Mkdir] because its own parent is a directory. *)
Definition can_create (path_Dir : gostring -> gostring)
           (fs : fracserv.filesystem) (fn : gostring) : Prop :=
  fs !! path_Dir fn = Some fracserv.Dir \/
  (fs !! path_Dir fn = None /\
   fs !! path_Dir (path_Dir fn) = Some fracserv.Dir /\
   path_Dir fn <> fn).

(** The character substitution of the design document: [?] becomes [/],
    [&] becomes [,], any other character stays. *)
Definition spec_substitute (r : rune) : rune :=
  if decide (r = rune_of_ascii "?"%char) then rune_of_ascii "/"%char
  else if decide (r = rune_of_ascii "&"%char) then rune_of_ascii ","%char
  else r.

(** Any number of started persistence goroutines run, each at its own
    time: [(i, now)] runs the [i]-th pending one at time [now]. *)
Definition run_goroutines {C} `{fracserv.Cache C} (path_Dir : gostring -> gostring)
           (cacheDir : gostring) (st : fracserv.world C) (sched : list (nat * Time))
  : fracserv.world C :=
  fold_left (fun s it => fracserv.run_goroutine path_Dir cacheDir s (fst it) (snd it))
            sched st.

(** The state a successful render leaves: the entry is in the cache, the
    persistence goroutine is started, and the five calls are recorded. *)
Definition rendered {C} `{fracserv.Cache C} (st : fracserv.world C)
           (req : fracserv.Request) (t : gostring) (cp : fracserv.cachedPng)
  : fracserv.world C :=
  let key := fracserv.fsNameFromURL (fracserv.RequestURI req) in
  fracserv.mkWorld
    (fracserv.cache_Add (fracserv.pngCache st) key cp) (fracserv.disk st)
    (fracserv.goroutines st ++ [key])
    (fracserv.calls st ++ [fracserv.CallCacheGet key] ++
       [fracserv.CallFactory t (fractal.mkOptions (fracserv.Query req))] ++
       [fracserv.CallEncode] ++ [fracserv.CallCacheAdd key cp] ++
       [fracserv.CallGoSave key]).

(** ** A sample server

    Two generators, [solid] (which rejects the option [fail]) and [broken]
    (whose image the encoder fails on after one byte), a cache root that
    exists, and an empty cache. *)

Module Sample.

Import fractal fracserv.

Inductive image := Solid | Broken.

Definition Error_text (e : gostring) : gostring := e.

Definition newSolid (o : Options) : image + gostring :=
  match Values o !! str "fail" with
  | Some _ => inr (str "bad option")
  | None => inl Solid
  end.

Definition newBroken (o : Options) : image + gostring := inl Broken.

Definition factory (t : gostring) : option (Options -> image + gostring) :=
  if decide (t = str "solid") then Some newSolid
  else if decide (t = str "broken") then Some newBroken
  else None.

Definition png_bytes : bytes := [Byte.x89; Byte.x50; Byte.x4e; Byte.x47].

Definition png_Encode (i : image) : bytes * option gostring :=
  match i with
  | Solid => (png_bytes, None)
  | Broken => ([Byte.x89], Some (str "encode failed"))
  end.

(** A stand-in for the HTTP date format: the seconds since the epoch. *)
Definition Time_Format (t : Time) : gostring := str "t=" ++ [t `div` 1000000000].

Definition string_bytes (s : gostring) : bytes :=
  map (fun r => default Byte.x00 (Byte.of_N (Z.to_N (r `mod` 256)))) s.

Definition cacheDir : gostring := str "/tmp/fractals".

Definition request : Request :=
  mkRequest (str "/solid?z=2&c=0,0")
            (<[str "z" := [str "2"]]> (<[str "c" := [str "0,0"]]> ∅)).

(** Two requests that differ in the query string only: one option
    [a=1,b=2], or two options [a=1] and [b=2]. *)
Definition request_comma : Request :=
  mkRequest (str "/solid?a=1,b=2") (<[str "a" := [str "1,b=2"]]> ∅).

Definition request_amp : Request :=
  mkRequest (str "/solid?a=1&b=2")
            (<[str "a" := [str "1"]]> (<[str "b" := [str "2"]]> ∅)).

Definition bad_request : Request :=
  mkRequest (str "/solid?fail=1") (<[str "fail" := [str "1"]]> ∅).

Definition disk0 : filesystem :=
  <[str "/tmp/fractals" := Dir]> (<[str "/tmp" := Dir]> (<[str "/" := Dir]> ∅)).

Definition world0 : world (gmap gostring cachedPng) := mkWorld ∅ disk0 [] [].

Definition draw (disableCache : bool) :=
  drawFractal image gostring Error_text factory png_Encode Time_Format string_bytes
              disableCache.

Definition t0 : Time := 5000000000.

Definition entry0 : cachedPng := mkCachedPng t0 png_bytes.

Definition key0 : gostring := str "/solid/z=2,c=0,0".

Definition cache1 : gmap gostring cachedPng := <[key0 := entry0]> ∅.

(** A disk on which an older, different tile is stored under [key0]. *)
Definition stale_file : file := mkFile [Byte.x00] 1 1.

Definition disk_stale : filesystem :=
  <[cachefn cacheDir key0 := File stale_file]>
    (<[str "/tmp/fractals/solid" := Dir]> disk0).

End Sample.

(** A zero, or a positive finite float. *)
Definition nonneg_finite (x : float64) : Prop :=
  match x with
  | S754_zero _ => True
  | S754_finite false _ _ => True
  | _ => False
  end.

(** Two characters that the key normalisation identifies. *)
Definition same_key_char (a b : rune) : Prop :=
  a = b \/
  (a = rune_of_ascii "?"%char /\ b = rune_of_ascii "/"%char) \/
  (a = rune_of_ascii "/"%char /\ b = rune_of_ascii "?"%char) \/
  (a = rune_of_ascii "&"%char /\ b = rune_of_ascii ","%char) \/
  (a = rune_of_ascii ","%char /\ b = rune_of_ascii "&"%char).

(** * Properties *)

(** ** Go integers *)

Lemma int_wrap_id x : int_range x -> int_wrap x = x.
Proof.
  unfold int_range, int_min, int_max, int_wrap. intros Hx.
  rewrite Z.mod_small; lia.
Qed.

Lemma int_add_exact x y : int_range (x + y) -> int_add x y = x + y.
Proof. apply int_wrap_id. Qed.

Lemma int_wrap_range x : int_range (int_wrap x).
Proof.
  unfold int_range, int_min, int_max, int_wrap.
  pose proof (Z.mod_pos_bound (x + 2 ^ 63) (2 ^ 64)). lia.
Qed.

(** ** The navigator *)

Section NavigatorFacts.

Import fractal.

Variable Pow : float64 -> float64 -> float64.

Lemma Transform_unfold n p :
  Transform Pow n p =
  ((float64_of_int (int_add (X p) (X (GetTranslate n))) /
      Pow (float64_of_int 2) (GetZoom n))%f64,
   (float64_of_int (int_add (Y p) (Y (GetTranslate n))) /
      Pow (float64_of_int 2) (GetZoom n))%f64).
Proof. reflexivity. Qed.

Lemma GetZoom_Zoom n z' : GetZoom (Zoom n z') = z'.
Proof. reflexivity. Qed.

Lemma GetTranslate_Translate n off : GetTranslate (Translate n off) = off.
Proof. reflexivity. Qed.

Lemma GetZoom_Translate n off : GetZoom (Translate n off) = GetZoom n.
Proof. reflexivity. Qed.

Lemma GetTranslate_Zoom n z' : GetTranslate (Zoom n z') = GetTranslate n.
Proof. reflexivity. Qed.

(** The sum is the mathematical one as long as it fits an [int]. *)
Lemma Transform_no_overflow n px py :
  int_range (px + X (GetTranslate n)) ->
  int_range (py + Y (GetTranslate n)) ->
  Transform Pow n (Pt px py) =
  ((float64_of_int (px + X (GetTranslate n)) / Pow (float64_of_int 2) (GetZoom n))%f64,
   (float64_of_int (py + Y (GetTranslate n)) / Pow (float64_of_int 2) (GetZoom n))%f64).
Proof.
  intros Hx Hy. rewrite Transform_unfold. cbn [X Y].
  rewrite !int_add_exact by assumption. reflexivity.
Qed.

(** C1. Whatever navigator has current zoom [zoom] and current offset
    [(ox, oy)] (as read back by [GetZoom] and [GetTranslate], however they
    were set), [Transform] of the pixel [(px, py)] is the pair
    [((px+ox)/2^zoom, (py+oy)/2^zoom)]: the offset is added to the pixel
    first, as an [int]; the sum is converted to [float64]; and that is
    divided by [math.Pow(2, zoom)].  The [int] sum is the mathematical sum
    whenever that fits an [int]. *)
Theorem Transform_formula :
  forall (n : DefaultNavigator) (zoom : float64) (ox oy px py : Z),
    GetZoom n = zoom ->
    GetTranslate n = Pt ox oy ->
    Transform Pow n (Pt px py) =
    ((float64_of_int (int_add px ox) / Pow (float64_of_int 2) zoom)%f64,
     (float64_of_int (int_add py oy) / Pow (float64_of_int 2) zoom)%f64) /\
    (int_range (px + ox) -> int_range (py + oy) ->
     Transform Pow n (Pt px py) =
     ((float64_of_int (px + ox) / Pow (float64_of_int 2) zoom)%f64,
      (float64_of_int (py + oy) / Pow (float64_of_int 2) zoom)%f64)).
Proof.
  intros n zoom ox oy px py Hz Hoff. split.
  - rewrite Transform_unfold, Hz, Hoff. reflexivity.
  - intros Hx Hy. rewrite <- Hz.
    replace ox with (X (GetTranslate n)) in * by (rewrite Hoff; reflexivity).
    replace oy with (Y (GetTranslate n)) in * by (rewrite Hoff; reflexivity).
    apply Transform_no_overflow; assumption.
Qed.

(** Setting the zoom and the offset through the mutators, in either order,
    gives the same transform. *)
Lemma Transform_after_mutators n zoom off p :
  Transform Pow (Translate (Zoom n zoom) off) p =
  Transform Pow (Zoom (Translate n off) zoom) p.
Proof. reflexivity. Qed.

(** The two facts about [math.Pow] the fixtures need: [Pow(x, 1) = x] is
    one of its documented special cases, and [2 ** 4] is exact. *)
Hypothesis Pow_2_1 : Pow (float64_of_int 2) (float64_of_int 1) = float64_of_int 2.
Hypothesis Pow_2_4 : Pow (float64_of_int 2) (float64_of_int 4) = float64_of_int 16.

Lemma Transform_zoom1 ox oy px py :
  Transform Pow (mkNav (float64_of_int 1) (Pt ox oy)) (Pt px py) =
  ((float64_of_int (int_add px ox) / float64_of_int 2)%f64,
   (float64_of_int (int_add py oy) / float64_of_int 2)%f64).
Proof. rewrite Transform_unfold. cbn [GetZoom z]. rewrite Pow_2_1. reflexivity. Qed.

Lemma Transform_zoom4 ox oy px py :
  Transform Pow (mkNav (float64_of_int 4) (Pt ox oy)) (Pt px py) =
  ((float64_of_int (int_add px ox) / float64_of_int 16)%f64,
   (float64_of_int (int_add py oy) / float64_of_int 16)%f64).
Proof. rewrite Transform_unfold. cbn [GetZoom z]. rewrite Pow_2_4. reflexivity. Qed.

(** C8, as the code has it. With (zoom, offset, pixel) of (1,(0,0),(0,0))
    [Transform] returns (0,0); with (1,(4,4),(0,0)) it returns (2,2), not
    (4,4); with (4,(0,0),(0,0)) it returns (0,0); with (4,(0,0),(4,4)) and
    with (4,(4,4),(0,0)) it returns (0.25,0.25); with (4,(4,4),(4,4)) it
    returns (0.5,0.5). *)
Theorem Transform_fixture_table :
  let T zoom off px := Transform Pow (mkNav (float64_of_int zoom) off) px in
  T 1 (Pt 0 0) (Pt 0 0) = (float64_of_int 0, float64_of_int 0) /\
  T 1 (Pt 4 4) (Pt 0 0) = (float64_of_int 2, float64_of_int 2) /\
  T 4 (Pt 0 0) (Pt 0 0) = (float64_of_int 0, float64_of_int 0) /\
  T 4 (Pt 0 0) (Pt 4 4) = (f64 1 (-2), f64 1 (-2)) /\
  T 4 (Pt 4 4) (Pt 0 0) = (f64 1 (-2), f64 1 (-2)) /\
  T 4 (Pt 4 4) (Pt 4 4) = (f64 1 (-1), f64 1 (-1)).
Proof.
  cbv beta zeta. rewrite !Transform_zoom1, !Transform_zoom4.
  repeat split; vm_compute; reflexivity.
Qed.

(** For every [math.Pow] with [Pow(2, 1) = 2] the second row of the
    document's table fails. *)
Lemma spec_fixture_table_fails : ~ spec_fixture_table Pow.
Proof.
  unfold spec_fixture_table. cbv beta zeta. intros (_ & H2 & _).
  rewrite Transform_zoom1 in H2. vm_compute in H2. discriminate H2.
Qed.

End NavigatorFacts.

Lemma Pow_integral_2_1 :
  Reference.Pow_integral (float64_of_int 2) (float64_of_int 1) = float64_of_int 2.
Proof. vm_compute. reflexivity. Qed.

Lemma Pow_integral_2_4 :
  Reference.Pow_integral (float64_of_int 2) (float64_of_int 4) = float64_of_int 16.
Proof. vm_compute. reflexivity. Qed.

Lemma Transform_formula_witness :
  fractal.GetZoom (fractal.NewDefaultNavigator (float64_of_int 4) 4 4) = float64_of_int 4 /\
  fractal.GetTranslate (fractal.NewDefaultNavigator (float64_of_int 4) 4 4) = fractal.Pt 4 4 /\
  fractal.Transform Reference.Pow_integral
    (fractal.NewDefaultNavigator (float64_of_int 4) 4 4) (fractal.Pt 4 4) =
  ((float64_of_int (4 + 4) /
      Reference.Pow_integral (float64_of_int 2) (float64_of_int 4))%f64,
   (float64_of_int (4 + 4) /
      Reference.Pow_integral (float64_of_int 2) (float64_of_int 4))%f64).
Proof.
  split; [reflexivity | split; [reflexivity |]].
  refine (proj2 (Transform_formula Reference.Pow_integral
                   (fractal.NewDefaultNavigator (float64_of_int 4) 4 4)
                   (float64_of_int 4) 4 4 4 4 eq_refl eq_refl) _ _);
    unfold int_range, int_min, int_max; lia.
Defined.

Lemma Transform_fixture_table_witness :
  Reference.Pow_integral (float64_of_int 2) (float64_of_int 1) = float64_of_int 2 /\
  Reference.Pow_integral (float64_of_int 2) (float64_of_int 4) = float64_of_int 16 /\
  fractal.Transform Reference.Pow_integral
    (fractal.mkNav (float64_of_int 1) (fractal.Pt 4 4)) (fractal.Pt 0 0) =
  (float64_of_int 2, float64_of_int 2) /\
  fractal.Transform Reference.Pow_integral
    (fractal.mkNav (float64_of_int 4) (fractal.Pt 4 4)) (fractal.Pt 4 4) =
  (f64 1 (-1), f64 1 (-1)).
Proof.
  pose proof (Transform_fixture_table Reference.Pow_integral
                Pow_integral_2_1 Pow_integral_2_4) as T.
  cbv beta zeta in T. destruct T as (_ & T2 & _ & _ & _ & T6).
  exact (conj Pow_integral_2_1 (conj Pow_integral_2_4 (conj T2 T6))).
Defined.

(** C8, as stated, fails: at zoom 1, offset (4,4), pixel (0,0) the code
    returns (2,2), so the table with (4,4) in that row does not hold. *)
Lemma spec_fixture_table_counterexample :
  ~ spec_fixture_table Reference.Pow_integral.
Proof. exact (spec_fixture_table_fails Reference.Pow_integral Pow_integral_2_1). Qed.

(** ** Request options *)

Section OptionFacts.

Import fractal.

Variable error : Type.
Variable Atoi : gostring -> Z + error.
Variable ParseFloat64 : gostring -> float64 + error.

(** [strconv] rejects the empty string, which is what [Get] returns for a
    key without value. *)
Hypothesis Atoi_empty : exists e, Atoi [] = inr e.
Hypothesis ParseFloat64_empty : exists e, ParseFloat64 [] = inr e.

Lemma Get_first o k v vs : Values o !! k = Some (v :: vs) -> Get o k = v.
Proof. unfold Get. intros ->. reflexivity. Qed.

Lemma Get_absent o k : Values o !! k = None -> Get o k = [].
Proof. unfold Get. intros ->. reflexivity. Qed.

Lemma Get_no_value o k : Values o !! k = Some [] -> Get o k = [].
Proof. unfold Get. intros ->. reflexivity. Qed.

Lemma GetIntDefault_parsed o k d v :
  Atoi (Get o k) = inl v -> GetIntDefault error Atoi o k d = (v, []).
Proof. unfold GetIntDefault. intros ->. reflexivity. Qed.

Lemma GetIntDefault_failed o k d e :
  Atoi (Get o k) = inr e ->
  GetIntDefault error Atoi o k d = (d, [LogParseFailed k (Get o k)]).
Proof. unfold GetIntDefault. intros ->. reflexivity. Qed.

Lemma GetFloat64Default_parsed o k d v :
  ParseFloat64 (Get o k) = inl v ->
  GetFloat64Default error ParseFloat64 o k d = (v, []).
Proof. unfold GetFloat64Default. intros ->. reflexivity. Qed.

Lemma GetFloat64Default_failed o k d e :
  ParseFloat64 (Get o k) = inr e ->
  GetFloat64Default error ParseFloat64 o k d = (d, [LogParseFailed k (Get o k)]).
Proof. unfold GetFloat64Default. intros ->. reflexivity. Qed.

(** C6. For every option key [k] and defaults [d] (integer) and [df]
    (float): when the first value of [k] parses, the accessor returns the
    parsed number; when it fails to parse, or [k] is absent, the accessor
    returns exactly the supplied default.  The result is a plain number in
    every case: the accessor has no error result. *)
Theorem typed_accessors_default :
  forall (o : Options) (k : gostring) (d : Z) (df : float64),
    (forall s rest v, Values o !! k = Some (s :: rest) -> Atoi s = inl v ->
       fst (GetIntDefault error Atoi o k d) = v) /\
    (forall s rest e, Values o !! k = Some (s :: rest) -> Atoi s = inr e ->
       fst (GetIntDefault error Atoi o k d) = d) /\
    (Values o !! k = None -> fst (GetIntDefault error Atoi o k d) = d) /\
    (forall s rest v, Values o !! k = Some (s :: rest) -> ParseFloat64 s = inl v ->
       fst (GetFloat64Default error ParseFloat64 o k df) = v) /\
    (forall s rest e, Values o !! k = Some (s :: rest) -> ParseFloat64 s = inr e ->
       fst (GetFloat64Default error ParseFloat64 o k df) = df) /\
    (Values o !! k = None ->
       fst (GetFloat64Default error ParseFloat64 o k df) = df).
Proof.
  intros o k d df.
  destruct Atoi_empty as [ei Hei]. destruct ParseFloat64_empty as [ef Hef].
  split; [| split; [| split; [| split; [| split]]]].
  - intros s rest v Hk Hs. apply Get_first in Hk.
    rewrite (GetIntDefault_parsed o k d v); [reflexivity | congruence].
  - intros s rest e Hk Hs. apply Get_first in Hk.
    rewrite (GetIntDefault_failed o k d e); [reflexivity | congruence].
  - intros Hk. apply Get_absent in Hk.
    rewrite (GetIntDefault_failed o k d ei); [reflexivity | congruence].
  - intros s rest v Hk Hs. apply Get_first in Hk.
    rewrite (GetFloat64Default_parsed o k df v); [reflexivity | congruence].
  - intros s rest e Hk Hs. apply Get_first in Hk.
    rewrite (GetFloat64Default_failed o k df e); [reflexivity | congruence].
  - intros Hk. apply Get_absent in Hk.
    rewrite (GetFloat64Default_failed o k df ef); [reflexivity | congruence].
Qed.

End OptionFacts.

Lemma typed_accessors_default_witness :
  (exists e, Reference.Atoi_decimal [] = inr e) /\
  (exists e, Reference.ParseFloat_decimal [] = inr e) /\
  fst (fractal.GetIntDefault _ Reference.Atoi_decimal sample_options (str "z") 5) = 12 /\
  fst (fractal.GetIntDefault _ Reference.Atoi_decimal sample_options (str "c") 5) = 5 /\
  fst (fractal.GetIntDefault _ Reference.Atoi_decimal sample_options (str "q") 5) = 5 /\
  fst (fractal.GetFloat64Default _ Reference.ParseFloat_decimal sample_options (str "z")
         (f64 1 (-1))) = float64_of_int 12 /\
  fst (fractal.GetFloat64Default _ Reference.ParseFloat_decimal sample_options (str "c")
         (f64 1 (-1))) = f64 1 (-1) /\
  fst (fractal.GetFloat64Default _ Reference.ParseFloat_decimal sample_options (str "q")
         (f64 1 (-1))) = f64 1 (-1).
Proof.
  assert (Hi : exists e, Reference.Atoi_decimal [] = inr e)
    by (exists Reference.ErrSyntax; reflexivity).
  assert (Hf : exists e, Reference.ParseFloat_decimal [] = inr e)
    by (exists Reference.ErrSyntax; reflexivity).
  split; [exact Hi | split; [exact Hf |]].
  pose proof (typed_accessors_default _ _ _ Hi Hf sample_options (str "z") 5 (f64 1 (-1)))
    as (Z1 & _ & _ & Z4 & _ & _).
  pose proof (typed_accessors_default _ _ _ Hi Hf sample_options (str "c") 5 (f64 1 (-1)))
    as (_ & C2 & _ & _ & C5 & _).
  pose proof (typed_accessors_default _ _ _ Hi Hf sample_options (str "q") 5 (f64 1 (-1)))
    as (_ & _ & Q3 & _ & _ & Q6).
  split; [| split; [| split; [| split; [| split]]]].
  - exact (Z1 (str "12") [str "7"] 12 eq_refl eq_refl).
  - exact (C2 (str "x") [] Reference.ErrSyntax eq_refl eq_refl).
  - exact (Q3 eq_refl).
  - exact (Z4 (str "12") [str "7"] (float64_of_int 12) eq_refl eq_refl).
  - exact (C5 (str "x") [] Reference.ErrSyntax eq_refl eq_refl).
  - exact (Q6 eq_refl).
Defined.

(** ** Cache keys *)

Lemma strings_Map_nonneg (f : rune -> rune) (s : gostring) :
  (forall r, 0 <= r -> 0 <= f r) ->
  Forall (fun r => 0 <= r) s ->
  strings_Map f s = map f s.
Proof.
  intros Hf Hs. induction Hs as [| r s Hr Hs IH]; [reflexivity |].
  unfold strings_Map in *. cbn [flat_map map]. rewrite IH.
  destruct (Z.ltb_spec (f r) 0) as [Hneg | _]; [| reflexivity].
  specialize (Hf r Hr). lia.
Qed.

Lemma cleanup_nonneg r : 0 <= r -> 0 <= fracserv.cleanup r.
Proof.
  intros Hr. unfold fracserv.cleanup.
  destruct (r =? rune_of_ascii "?"); [vm_compute; discriminate |].
  destruct (r =? rune_of_ascii "&"); [vm_compute; discriminate | exact Hr].
Qed.

Lemma cleanup_substitute r : fracserv.cleanup r = spec_substitute r.
Proof.
  unfold fracserv.cleanup, spec_substitute.
  destruct (Z.eqb_spec r (rune_of_ascii "?")) as [-> | Hq].
  - rewrite decide_True by reflexivity. reflexivity.
  - rewrite (decide_False _ _ Hq).
    destruct (Z.eqb_spec r (rune_of_ascii "&")) as [-> | Ha].
    + rewrite decide_True by reflexivity. reflexivity.
    + rewrite (decide_False _ _ Ha). reflexivity.
Qed.

Lemma fsNameFromURL_map url :
  Forall (fun r => 0 <= r) url ->
  fracserv.fsNameFromURL url = map spec_substitute url.
Proof.
  intros Hu. unfold fracserv.fsNameFromURL.
  rewrite strings_Map_nonneg by (auto using cleanup_nonneg).
  apply map_ext, cleanup_substitute.
Qed.

Lemma str_nonneg s : Forall (fun r => 0 <= r) (str s).
Proof.
  unfold str. apply Forall_forall. intros r Hin.
  apply list_elem_of_In, in_map_iff in Hin. destruct Hin as (a & <- & _).
  unfold rune_of_ascii. lia.
Qed.

(** ** Disk persistence *)

Section PersistenceFacts.

Import fractal fracserv.

Context {C : Type} `{Cache C}.
Variable path_Dir : gostring -> gostring.
Variable cacheDir : gostring.

Abbreviation save := (savePngFromCache path_Dir cacheDir).

Lemma os_Stat_true (fs : filesystem) p : os_Stat fs p = true <-> is_Some (fs !! p).
Proof. unfold os_Stat. apply bool_decide_eq_true. Qed.

Lemma os_Stat_false (fs : filesystem) p : os_Stat fs p = false <-> fs !! p = None.
Proof.
  unfold os_Stat. rewrite bool_decide_eq_false. split.
  - intros Hn. destruct (fs !! p) eqn:E; [| reflexivity]. exfalso. apply Hn. eauto.
  - intros -> [x Hx]. discriminate.
Qed.

(** [os.Mkdir] changes nothing at another path, and only ever adds a
    directory. *)
Lemma os_Mkdir_other (fs : filesystem) d p :
  p <> d -> os_Mkdir path_Dir fs d !! p = fs !! p.
Proof.
  intros Hp. unfold os_Mkdir.
  destruct (fs !! d); [reflexivity |].
  destruct (fs !! path_Dir d) as [[| f] |]; try reflexivity.
  rewrite lookup_insert_ne by congruence. reflexivity.
Qed.

Lemma os_Mkdir_files (fs : filesystem) d p f :
  os_Mkdir path_Dir fs d !! p = Some (File f) <-> fs !! p = Some (File f).
Proof.
  unfold os_Mkdir.
  destruct (fs !! d) eqn:Ed; [reflexivity |].
  destruct (fs !! path_Dir d) as [[| f'] |]; try reflexivity.
  destruct (decide (p = d)) as [-> | Hne].
  - rewrite lookup_insert_eq, Ed. split; discriminate.
  - rewrite lookup_insert_ne by congruence. reflexivity.
Qed.

Lemma os_Mkdir_present (fs : filesystem) d :
  is_Some (fs !! d) -> os_Mkdir path_Dir fs d = fs.
Proof. intros [x Hx]. unfold os_Mkdir. rewrite Hx. reflexivity. Qed.

Lemma os_Mkdir_creates (fs : filesystem) d :
  fs !! d = None -> fs !! path_Dir d = Some Dir ->
  os_Mkdir path_Dir fs d !! d = Some Dir.
Proof. intros Hd Hp. unfold os_Mkdir. rewrite Hd, Hp. apply lookup_insert_eq. Qed.

Lemma ensure_dir_other fs d p : p <> d -> ensure_dir path_Dir fs d !! p = fs !! p.
Proof.
  intros Hp. unfold ensure_dir. destruct (os_Stat fs d); [reflexivity |].
  apply os_Mkdir_other, Hp.
Qed.

Lemma ensure_dir_files fs d p f :
  ensure_dir path_Dir fs d !! p = Some (File f) <-> fs !! p = Some (File f).
Proof.
  unfold ensure_dir. destruct (os_Stat fs d); [reflexivity |].
  apply os_Mkdir_files.
Qed.

Lemma ensure_dir_present fs d : is_Some (fs !! d) -> ensure_dir path_Dir fs d = fs.
Proof.
  intros Hd. unfold ensure_dir. destruct (os_Stat fs d); [reflexivity |].
  apply os_Mkdir_present, Hd.
Qed.

Lemma ensure_dir_ready fs fn :
  fs !! fn = None -> can_create path_Dir fs fn ->
  ensure_dir path_Dir fs (path_Dir fn) !! path_Dir fn = Some Dir /\
  ensure_dir path_Dir fs (path_Dir fn) !! fn = None.
Proof.
  intros Hfn [Hd | (Hd & Hpp & Hne)].
  - rewrite ensure_dir_present by (rewrite Hd; eauto). auto.
  - split.
    + unfold ensure_dir. rewrite (proj2 (os_Stat_false fs _) Hd).
      apply os_Mkdir_creates; assumption.
    + rewrite ensure_dir_other by congruence. exact Hfn.
Qed.

(** [savePngFromCache], with its first step named. *)
Lemma save_unfold (c : C) fs now key :
  save c fs now key =
  match cache_Get c key with
  | None => (fs, [LogNotInCache key])
  | Some cp =>
      let fn := cachefn cacheDir key in
      let d := path_Dir fn in
      let fs1 := ensure_dir path_Dir fs d in
      let log1 := if os_Stat fs d then [] else [LogCreatingDir d] in
      if os_Stat fs1 fn then (fs1, log1 ++ [LogFileExists key fn])
      else
        match os_OpenFile path_Dir fs1 fn now with
        | None => (fs1, log1 ++ [LogOpenFailed fn])
        | Some fs2 =>
            let fs3 := file_Write fs2 fn (Bytes cp) now in
            (fst (os_Chtimes fs3 fn (Timestamp cp) (Timestamp cp)),
             log1 ++ (if snd (os_Chtimes fs3 fn (Timestamp cp) (Timestamp cp))
                      then [] else [LogChtimesFailed fn]))
        end
  end.
Proof.
  unfold savePngFromCache, ensure_dir.
  destruct (cache_Get c key) as [cp |]; [| reflexivity].
  cbv zeta. destruct (os_Stat fs (path_Dir (cachefn cacheDir key))).
  - destruct (os_Stat fs _); [reflexivity |].
    destruct (os_OpenFile _ _ _ _); [| reflexivity].
    destruct (os_Chtimes _ _ _ _). reflexivity.
  - destruct (os_Stat _ _); [reflexivity |].
    destruct (os_OpenFile _ _ _ _); [| reflexivity].
    destruct (os_Chtimes _ _ _ _). reflexivity.
Qed.

(** The file a successful open, write and time-set leave behind: the bytes
    written, stamped with the time passed to [Chtimes], whatever the time
    of the write. *)
Lemma open_write_chtimes (fs : filesystem) fn b now t :
  fs !! fn = None -> fs !! path_Dir fn = Some Dir ->
  exists fs2,
    os_OpenFile path_Dir fs fn now = Some fs2 /\
    fst (os_Chtimes (file_Write fs2 fn b now) fn t t) !! fn = Some (File (mkFile b t t)) /\
    snd (os_Chtimes (file_Write fs2 fn b now) fn t t) = true /\
    forall p, p <> fn -> fst (os_Chtimes (file_Write fs2 fn b now) fn t t) !! p = fs !! p.
Proof.
  intros Hfn Hd. unfold os_OpenFile. rewrite Hfn, Hd.
  eexists. split; [reflexivity |].
  unfold file_Write. rewrite lookup_insert_eq. cbn [f_bytes f_atime].
  rewrite drop_nil, app_nil_r.
  unfold os_Chtimes. rewrite lookup_insert_eq. cbn [fst snd f_bytes].
  split; [apply lookup_insert_eq |]. split; [reflexivity |].
  intros p Hp. rewrite !lookup_insert_ne by congruence. reflexivity.
Qed.

(** A file that exists stops the call: no regular file is created, removed
    or changed, whatever the cache holds under the key. *)
Lemma save_existing (c : C) fs now key :
  os_Stat fs (cachefn cacheDir key) = true ->
  fst (save c fs now key) !! cachefn cacheDir key = fs !! cachefn cacheDir key /\
  (forall p f, fst (save c fs now key) !! p = Some (File f) <-> fs !! p = Some (File f)) /\
  (is_Some (fs !! path_Dir (cachefn cacheDir key)) -> fst (save c fs now key) = fs).
Proof.
  intros Hex. apply os_Stat_true in Hex. rewrite save_unfold.
  destruct (cache_Get c key) as [cp |]; [| cbn [fst]; tauto].
  cbv zeta. set (fn := cachefn cacheDir key) in *. set (d := path_Dir fn).
  assert (Hsame : ensure_dir path_Dir fs d !! fn = fs !! fn).
  { destruct (decide (fn = d)) as [E | E].
    - rewrite ensure_dir_present; [reflexivity | rewrite <- E; exact Hex].
    - apply ensure_dir_other, E. }
  rewrite (proj2 (os_Stat_true _ fn)) by (rewrite Hsame; exact Hex).
  cbn [fst]. split; [exact Hsame | split].
  - intros p f. apply ensure_dir_files.
  - apply ensure_dir_present.
Qed.

(** With an entry in the cache, nothing at the path and a directory to
    create the file in, the call leaves the entry's bytes there, stamped
    with the entry's timestamp. *)
Lemma save_missing (c : C) fs now key cp :
  cache_Get c key = Some cp ->
  os_Stat fs (cachefn cacheDir key) = false ->
  can_create path_Dir fs (cachefn cacheDir key) ->
  fst (save c fs now key) !! cachefn cacheDir key =
    Some (File (mkFile (Bytes cp) (Timestamp cp) (Timestamp cp))) /\
  fst (save c fs now key) !! path_Dir (cachefn cacheDir key) = Some Dir.
Proof.
  intros Hget Hno Hcan. apply os_Stat_false in Hno.
  rewrite save_unfold, Hget. cbv zeta.
  set (fn := cachefn cacheDir key) in *.
  destruct (ensure_dir_ready fs fn Hno Hcan) as [Hd Hfn].
  rewrite (proj2 (os_Stat_false _ fn) Hfn).
  destruct (open_write_chtimes _ fn (Bytes cp) now (Timestamp cp) Hfn Hd)
    as (fs2 & -> & Hfile & _ & Hother).
  cbn [fst]. split; [exact Hfile |].
  rewrite Hother; [exact Hd |]. intros E. rewrite E in Hd, Hfn. congruence.
Qed.

(** C3. Disk persistence is idempotent by file existence.  If something
    already exists at the path derived from the cache key, the call writes
    nothing: what is at that path is unchanged, and so is every regular
    file (bytes and times), whatever entry the cache holds under the key.
    If nothing exists there (and the key has an entry [cp], and the file
    can be created), then after the call the file holds the entry's bytes
    and both its modification and its access time are the entry's
    timestamp, for every time [now] of the write. *)
Theorem persistence_by_existence :
  forall (c : C) (fs : filesystem) (now : Time) (key : gostring),
    (os_Stat fs (cachefn cacheDir key) = true ->
       fst (save c fs now key) !! cachefn cacheDir key = fs !! cachefn cacheDir key /\
       forall p f, fst (save c fs now key) !! p = Some (File f) <->
                   fs !! p = Some (File f)) /\
    (os_Stat fs (cachefn cacheDir key) = false ->
       forall cp, cache_Get c key = Some cp ->
       can_create path_Dir fs (cachefn cacheDir key) ->
       fst (save c fs now key) !! cachefn cacheDir key =
         Some (File (mkFile (Bytes cp) (Timestamp cp) (Timestamp cp)))).
Proof.
  intros c fs now key. split.
  - intros Hex. destruct (save_existing c fs now key Hex) as (H1 & H2 & _).
    split; assumption.
  - intros Hno cp Hget Hcan.
    exact (proj1 (save_missing c fs now key cp Hget Hno Hcan)).
Qed.

(** When the directory is missing and cannot be made by the one [Mkdir]
    (its own parent is not a directory), the open fails: the call logs it
    and leaves the disk as it was. *)
Lemma save_open_failed (c : C) fs now key cp :
  cache_Get c key = Some cp ->
  fs !! cachefn cacheDir key = None ->
  fs !! path_Dir (cachefn cacheDir key) = None ->
  fs !! path_Dir (path_Dir (cachefn cacheDir key)) <> Some Dir ->
  save c fs now key =
  (fs, [LogCreatingDir (path_Dir (cachefn cacheDir key));
        LogOpenFailed (cachefn cacheDir key)]).
Proof.
  intros Hget Hfn Hd Hpp. rewrite save_unfold, Hget. cbv zeta.
  set (fn := cachefn cacheDir key) in *. set (d := path_Dir fn) in *.
  assert (Hens : ensure_dir path_Dir fs d = fs).
  { unfold ensure_dir. rewrite (proj2 (os_Stat_false fs d) Hd).
    unfold os_Mkdir. rewrite Hd.
    destruct (fs !! path_Dir d) as [[| f] |]; [congruence | reflexivity | reflexivity]. }
  rewrite Hens, (proj2 (os_Stat_false fs d) Hd), (proj2 (os_Stat_false fs fn) Hfn).
  unfold os_OpenFile. rewrite Hfn. fold d. rewrite Hd. reflexivity.
Qed.

(** Calling it twice writes the file once: the second call, at any later
    time and with any cache content, changes nothing. *)
Lemma save_twice (c c' : C) fs now now' key cp :
  cache_Get c key = Some cp ->
  os_Stat fs (cachefn cacheDir key) = false ->
  can_create path_Dir fs (cachefn cacheDir key) ->
  fst (save c' (fst (save c fs now key)) now' key) = fst (save c fs now key).
Proof.
  intros Hget Hno Hcan.
  destruct (save_missing c fs now key cp Hget Hno Hcan) as [Hfile Hdir].
  apply save_existing.
  - apply os_Stat_true. rewrite Hfile. eauto.
  - rewrite Hdir. eauto.
Qed.

(** The call touches the path [cacheDir + cacheKey] and its directory,
    nothing else. *)
Lemma save_frame (c : C) fs now key p :
  p <> cachefn cacheDir key -> p <> path_Dir (cachefn cacheDir key) ->
  fst (save c fs now key) !! p = fs !! p.
Proof.
  intros Hfn Hd. rewrite save_unfold.
  destruct (cache_Get c key) as [cp |]; [| reflexivity]. cbv zeta.
  set (fn := cachefn cacheDir key) in *. set (d := path_Dir fn) in *.
  pose proof (ensure_dir_other fs d p Hd) as Hens.
  destruct (os_Stat (ensure_dir path_Dir fs d) fn); [exact Hens |].
  unfold os_OpenFile.
  destruct (ensure_dir path_Dir fs d !! fn) as [[| f] |] eqn:Efn; try exact Hens.
  - cbn [fst]. unfold file_Write. rewrite Efn.
    unfold os_Chtimes. rewrite lookup_insert_eq. cbn [fst].
    rewrite !lookup_insert_ne by congruence. exact Hens.
  - fold d. destruct (ensure_dir path_Dir fs d !! d) as [[| f] |]; try exact Hens.
    cbn [fst]. unfold file_Write. rewrite lookup_insert_eq.
    unfold os_Chtimes. rewrite lookup_insert_eq. cbn [fst].
    rewrite !lookup_insert_ne by congruence. exact Hens.
Qed.

(** C2. The request-to-cache-key mapping replaces every [?] by [/] and
    every [&] by [,] and leaves every other character as it is (the key
    has the length of the URI and, position by position, the substituted
    character); the URI [/mandelbrot?z=2&c=0,0] maps to the key
    [/mandelbrot/z=2,c=0,0]; and the disk mirror of a key is at the path
    [cacheDir ++ cacheKey]: that is where the entry's file is written, and
    no path other than it and its directory is touched. *)
Theorem cache_key_mapping :
  forall url : gostring,
    Forall (fun r => 0 <= r) url ->
    (length (fsNameFromURL url) = length url /\
     forall i r, url !! i = Some r ->
       fsNameFromURL url !! i = Some (spec_substitute r)) /\
    fsNameFromURL (str "/mandelbrot?z=2&c=0,0") = str "/mandelbrot/z=2,c=0,0" /\
    (forall (c : C) fs now cp,
       cache_Get c (fsNameFromURL url) = Some cp ->
       fs !! (cacheDir ++ fsNameFromURL url) = None ->
       can_create path_Dir fs (cacheDir ++ fsNameFromURL url) ->
       fst (save c fs now (fsNameFromURL url)) !! (cacheDir ++ fsNameFromURL url) =
         Some (File (mkFile (Bytes cp) (Timestamp cp) (Timestamp cp)))) /\
    (forall (c : C) fs now p,
       p <> cacheDir ++ fsNameFromURL url ->
       p <> path_Dir (cacheDir ++ fsNameFromURL url) ->
       fst (save c fs now (fsNameFromURL url)) !! p = fs !! p).
Proof.
  intros url Hurl. split; [| split; [| split]].
  - rewrite (fsNameFromURL_map url Hurl). split.
    + apply length_map.
    + intros i r Hi.
      change (map spec_substitute url) with (spec_substitute <$> url).
      rewrite list_lookup_fmap, Hi. reflexivity.
  - vm_compute. reflexivity.
  - intros c fs now cp Hget Hno Hcan.
    apply (save_missing c fs now (fsNameFromURL url) cp Hget); [| exact Hcan].
    apply os_Stat_false. exact Hno.
  - intros c fs now p Hfn Hd. apply save_frame; assumption.
Qed.

End PersistenceFacts.

(** ** The render handler *)

Section HandlerFacts.

Import fractal fracserv.

Context {C : Type} `{Cache C}.
Variable Image : Type.
Variable error : Type.
Variable Error_text : error -> gostring.
Variable factory : gostring -> option (Options -> Image + error).
Variable png_Encode : Image -> bytes * option error.
Variable Time_Format : Time -> gostring.
Variable string_bytes : gostring -> bytes.
Variable path_Dir : gostring -> gostring.
Variable cacheDir : gostring.
Variable disableCache : bool.

Abbreviation draw :=
  (drawFractal Image error Error_text factory png_Encode Time_Format string_bytes
               disableCache).
Abbreviation serve' := (serve Time_Format).
Abbreviation http_Error' := (http_Error string_bytes).
Abbreviation key req := (fsNameFromURL (RequestURI req)).
Abbreviation newline := (str (String (ascii_of_nat 10) EmptyString)).

(** *** Responses *)

Lemma response_of_Write w b :
  wrote w = None ->
  response_of (Write w b) = mkResponse StatusOK (Header w) (body w ++ b).
Proof. intros Hw. unfold Write, WriteHeader, response_of. rewrite Hw. reflexivity. Qed.

Lemma response_of_http_Error w msg code :
  wrote w = None ->
  response_of (http_Error' w msg code) =
  mkResponse code (<[str "Content-Type" := str "text/plain; charset=utf-8"]> (Header w))
             (body w ++ string_bytes (msg ++ newline)).
Proof.
  intros Hw. unfold http_Error, Write, WriteHeader, Header_Set, response_of.
  cbn [wrote Header body]. rewrite Hw. reflexivity.
Qed.

Lemma response_of_serve w cp :
  wrote w = None ->
  response_of (serve' w cp) =
  mkResponse StatusOK
    (<[str "Expires" := Time_Format (Time_Add (Timestamp cp) time_Hour)]>
       (<[str "Last-Modified" := Time_Format (Timestamp cp)]>
          (<[str "Content-Type" := str "image/png"]> (Header w))))
    (body w ++ Bytes cp).
Proof.
  intros Hw. unfold serve, Write, WriteHeader, Header_Set, response_of.
  cbn [wrote Header body]. rewrite Hw. reflexivity.
Qed.

Lemma serve_headers w cp :
  wrote w = None ->
  resp_status (response_of (serve' w cp)) = StatusOK /\
  resp_header (response_of (serve' w cp)) !! str "Content-Type" = Some (str "image/png") /\
  resp_header (response_of (serve' w cp)) !! str "Last-Modified" =
    Some (Time_Format (Timestamp cp)) /\
  resp_header (response_of (serve' w cp)) !! str "Expires" =
    Some (Time_Format (Time_Add (Timestamp cp) time_Hour)) /\
  resp_body (response_of (serve' w cp)) = body w ++ Bytes cp.
Proof.
  intros Hw. rewrite (response_of_serve w cp Hw). cbn [resp_status resp_header resp_body].
  split; [reflexivity |]. split; [| split; [| split; [| reflexivity]]].
  - rewrite !lookup_insert_ne by (vm_compute; discriminate). apply lookup_insert_eq.
  - rewrite lookup_insert_ne by (vm_compute; discriminate). apply lookup_insert_eq.
  - apply lookup_insert_eq.
Qed.

(** *** The paths through [drawFractal] *)

Lemma draw_disabled st w req t now f :
  disableCache = true -> factory t = Some f ->
  draw st w req t now =
  Some (match f (mkOptions (Query req)) with
        | inr err =>
            (record_call st (CallFactory t (mkOptions (Query req))),
             http_Error' w (Error_text err) StatusInternalServerError)
        | inl i =>
            (record_call (record_call st (CallFactory t (mkOptions (Query req)))) CallEncode,
             Write w (fst (png_Encode i)))
        end).
Proof.
  intros Hd Hf. unfold drawFractal. rewrite Hd, Hf. cbv zeta.
  destruct (f _) as [i | err]; [| reflexivity].
  destruct (png_Encode i). reflexivity.
Qed.

Lemma draw_hit st w req t now cp :
  disableCache = false -> cache_Get (pngCache st) (key req) = Some cp ->
  draw st w req t now = Some (record_call st (CallCacheGet (key req)), serve' w cp).
Proof.
  intros Hd Hget. unfold drawFractal. rewrite Hd. cbv zeta.
  cbn [record_call pngCache]. rewrite Hget. reflexivity.
Qed.

Lemma draw_miss_ok st w req t now f i :
  disableCache = false -> cache_Get (pngCache st) (key req) = None ->
  factory t = Some f -> f (mkOptions (Query req)) = inl i ->
  draw st w req t now =
  Some (rendered st req t (mkCachedPng now (fst (png_Encode i))),
        serve' w (mkCachedPng now (fst (png_Encode i)))).
Proof.
  intros Hd Hget Hf Hi. unfold drawFractal. rewrite Hd. cbv zeta.
  cbn [record_call pngCache]. rewrite Hget, Hf, Hi.
  destruct (png_Encode i) as [b e]. unfold rendered, record_call.
  cbn [fst pngCache disk goroutines calls]. rewrite <- !app_assoc. reflexivity.
Qed.

Lemma draw_miss_err st w req t now f err :
  disableCache = false -> cache_Get (pngCache st) (key req) = None ->
  factory t = Some f -> f (mkOptions (Query req)) = inr err ->
  draw st w req t now =
  Some (record_call (record_call st (CallCacheGet (key req)))
                    (CallFactory t (mkOptions (Query req))),
        http_Error' w (Error_text err) StatusInternalServerError).
Proof.
  intros Hd Hget Hf Hi. unfold drawFractal. rewrite Hd. cbv zeta.
  cbn [record_call pngCache]. rewrite Hget, Hf, Hi. reflexivity.
Qed.


Lemma draw_panic st w req t now :
  factory t = None ->
  disableCache = true \/ cache_Get (pngCache st) (key req) = None ->
  draw st w req t now = None.
Proof.
  intros Hf Hrender. unfold drawFractal. rewrite Hf. cbv zeta.
  destruct disableCache; [reflexivity |].
  destruct Hrender as [Hd | Hmiss]; [discriminate |].
  cbn [record_call pngCache]. rewrite Hmiss. reflexivity.
Qed.

Lemma pngCache_record_call (st : world C) c : pngCache (record_call st c) = pngCache st.
Proof. reflexivity. Qed.

Lemma factory_calls_app a b :
  factory_calls (a ++ b) = (factory_calls a + factory_calls b)%nat.
Proof. unfold factory_calls. rewrite List.filter_app, length_app. reflexivity. Qed.

(** *** Persistence goroutines leave the cache and the trace alone *)

Lemma run_goroutine_cache (st : world C) i now :
  pngCache (run_goroutine path_Dir cacheDir st i now) = pngCache st /\
  calls (run_goroutine path_Dir cacheDir st i now) = calls st.
Proof.
  unfold run_goroutine. destruct (goroutines st !! i); [| auto].
  destruct (savePngFromCache _ _ _ _ _ _). auto.
Qed.

Lemma run_goroutines_cache sched (st : world C) :
  pngCache (run_goroutines path_Dir cacheDir st sched) = pngCache st /\
  calls (run_goroutines path_Dir cacheDir st sched) = calls st.
Proof.
  revert st. induction sched as [| [i now] sched IH]; intros st; [auto |].
  unfold run_goroutines in *. cbn [fold_left fst snd].
  destruct (IH (run_goroutine path_Dir cacheDir st i now)) as [-> ->].
  apply run_goroutine_cache.
Qed.

(** C4, as the code has it.  A render request answered with status 200 on
    a fresh response writer: with the cache enabled the response carries
    [Content-Type: image/png], a [Last-Modified] header that is the
    formatted timestamp of the entry the cache now holds under the key, an
    [Expires] header that is the formatted time one hour after that same
    timestamp, and the entry's bytes as body.  With the cache-disable flag
    set the handler sets no header at all (so neither [Last-Modified] nor
    [Expires]); the body is what the encoder wrote. *)
Theorem render_response :
  forall (st : world C) req t now st' w',
    draw st newResponseWriter req t now = Some (st', w') ->
    resp_status (response_of w') = StatusOK ->
    (disableCache = false ->
       exists cp,
         cache_Get (pngCache st') (key req) = Some cp /\
         resp_header (response_of w') !! str "Content-Type" = Some (str "image/png") /\
         resp_header (response_of w') !! str "Last-Modified" =
           Some (Time_Format (Timestamp cp)) /\
         resp_header (response_of w') !! str "Expires" =
           Some (Time_Format (Time_Add (Timestamp cp) time_Hour)) /\
         resp_body (response_of w') = Bytes cp) /\
    (disableCache = true ->
       resp_header (response_of w') = ∅ /\
       exists f i,
         factory t = Some f /\ f (mkOptions (Query req)) = inl i /\
         resp_body (response_of w') = fst (png_Encode i)).
Proof.
  intros st req t now st' w' Hdraw Hok.
  assert (Hfresh : wrote newResponseWriter = None) by reflexivity.
  split; intros Hflag.
  - destruct (cache_Get (pngCache st) (key req)) as [cp |] eqn:Hget.
    + rewrite (draw_hit st _ req t now cp Hflag Hget) in Hdraw.
      injection Hdraw as <- <-. exists cp.
      rewrite pngCache_record_call. split; [exact Hget |].
      exact (proj2 (serve_headers newResponseWriter cp Hfresh)).
    + destruct (factory t) as [f |] eqn:Hf;
        [| rewrite (draw_panic st _ req t now Hf (or_intror Hget)) in Hdraw;
           discriminate].
      destruct (f (mkOptions (Query req))) as [i | err] eqn:Hi.
      * rewrite (draw_miss_ok st _ req t now f i Hflag Hget Hf Hi) in Hdraw.
        injection Hdraw as <- <-. eexists. split.
        -- unfold rendered. cbn [pngCache]. apply cache_Get_Add.
        -- exact (proj2 (serve_headers newResponseWriter _ Hfresh)).
      * rewrite (draw_miss_err st _ req t now f err Hflag Hget Hf Hi) in Hdraw.
        injection Hdraw as <- <-.
        rewrite (response_of_http_Error _ _ _ Hfresh) in Hok. discriminate Hok.
  - destruct (factory t) as [f |] eqn:Hf;
      [| rewrite (draw_panic st _ req t now Hf (or_introl Hflag)) in Hdraw;
         discriminate].
    rewrite (draw_disabled st _ req t now f Hflag Hf) in Hdraw.
    destruct (f (mkOptions (Query req))) as [i | err] eqn:Hi;
      injection Hdraw as <- <-.
    + rewrite (response_of_Write _ _ Hfresh). cbn [resp_header resp_body].
      split; [reflexivity |]. exists f, i. auto.
    + rewrite (response_of_http_Error _ _ _ Hfresh) in Hok. discriminate Hok.
Qed.

(** C5, as the code has it.  For a request that renders (cache disabled,
    or no entry under its key): a generator construction failure is
    answered with status 500 and the error text, the body holds nothing
    else, and neither the cache nor the set of persistence goroutines
    changes.  A PNG encoding failure is not answered that way: the error
    result of the encoder is discarded, the response has status 200 and the
    bytes the encoder wrote as body, and with the cache enabled these bytes
    are stored under the key. *)
Theorem render_failures :
  forall (st : world C) req t now f,
    factory t = Some f ->
    disableCache = true \/ cache_Get (pngCache st) (key req) = None ->
    (forall err, f (mkOptions (Query req)) = inr err ->
       exists st' w',
         draw st newResponseWriter req t now = Some (st', w') /\
         resp_status (response_of w') = StatusInternalServerError /\
         resp_body (response_of w') = string_bytes (Error_text err ++ newline) /\
         pngCache st' = pngCache st /\ goroutines st' = goroutines st) /\
    (forall i b e, f (mkOptions (Query req)) = inl i -> png_Encode i = (b, Some e) ->
       exists st' w',
         draw st newResponseWriter req t now = Some (st', w') /\
         resp_status (response_of w') = StatusOK /\
         resp_body (response_of w') = b /\
         (disableCache = false ->
            cache_Get (pngCache st') (key req) = Some (mkCachedPng now b))).
Proof.
  intros st req t now f Hf Hrender.
  assert (Hfresh : wrote newResponseWriter = None) by reflexivity.
  split.
  - intros err Herr.
    assert (Hcase : disableCache = true \/ disableCache = false)
      by (destruct disableCache; auto).
    destruct Hcase as [Hflag | Hflag].
    + eexists _, _. rewrite (draw_disabled st _ req t now f Hflag Hf), Herr.
      split; [reflexivity |]. rewrite (response_of_http_Error _ _ _ Hfresh).
      cbn. auto.
    + destruct Hrender as [Hd | Hmiss]; [congruence |].
      eexists _, _. rewrite (draw_miss_err st _ req t now f err Hflag Hmiss Hf Herr).
      split; [reflexivity |]. rewrite (response_of_http_Error _ _ _ Hfresh).
      cbn. auto.
  - intros i b e Hi Henc.
    assert (Hcase : disableCache = true \/ disableCache = false)
      by (destruct disableCache; auto).
    destruct Hcase as [Hflag | Hflag].
    + eexists _, _. rewrite (draw_disabled st _ req t now f Hflag Hf), Hi, Henc.
      split; [reflexivity |]. rewrite (response_of_Write _ _ Hfresh).
      cbn. split; [reflexivity | split; [reflexivity | congruence]].
    + destruct Hrender as [Hd | Hmiss]; [congruence |].
      eexists _, _. rewrite (draw_miss_ok st _ req t now f i Hflag Hmiss Hf Hi), Henc.
      split; [reflexivity |]. rewrite (response_of_serve _ _ Hfresh).
      cbn [fst resp_status resp_body body newResponseWriter Bytes app].
      split; [reflexivity | split; [reflexivity |]].
      intros _. unfold rendered. cbn [pngCache]. apply cache_Get_Add.
Qed.

(** A request answered with status 200 on the cached path leaves its entry
    in the cache under its key; the body is that entry's bytes. *)
Lemma cached_after_ok (st : world C) req t now st1 w1 :
  disableCache = false ->
  draw st newResponseWriter req t now = Some (st1, w1) ->
  resp_status (response_of w1) = StatusOK ->
  exists cp,
    cache_Get (pngCache st1) (key req) = Some cp /\
    resp_body (response_of w1) = Bytes cp.
Proof.
  intros Hflag Hdraw Hok.
  assert (Hfresh : wrote newResponseWriter = None) by reflexivity.
  destruct (cache_Get (pngCache st) (key req)) as [cp |] eqn:Hget.
  - rewrite (draw_hit st _ req t now cp Hflag Hget) in Hdraw.
    injection Hdraw as <- <-. exists cp. split; [exact Hget |].
    exact (proj2 (proj2 (proj2 (proj2 (serve_headers newResponseWriter cp Hfresh))))).
  - destruct (factory t) as [f |] eqn:Hf;
      [| rewrite (draw_panic st _ req t now Hf (or_intror Hget)) in Hdraw;
         discriminate].
    destruct (f (mkOptions (Query req))) as [i | err] eqn:Hi.
    + rewrite (draw_miss_ok st _ req t now f i Hflag Hget Hf Hi) in Hdraw.
      injection Hdraw as <- <-. eexists. split.
      * unfold rendered. cbn [pngCache]. apply cache_Get_Add.
      * exact (proj2 (proj2 (proj2 (proj2 (serve_headers newResponseWriter _ Hfresh))))).
    + rewrite (draw_miss_err st _ req t now f err Hflag Hget Hf Hi) in Hdraw.
      injection Hdraw as <- <-.
      rewrite (response_of_http_Error _ _ _ Hfresh) in Hok. discriminate Hok.
Qed.

(** Once an entry is in the cache, every request whose URI normalises to
    its key is served from it, whatever persistence goroutines ran
    meanwhile, and the generator registry is not invoked. *)
Lemma served_from_entry (st1 : world C) cp sched w req2 t2 now2 :
  disableCache = false ->
  cache_Get (pngCache st1) (key req2) = Some cp ->
  draw (run_goroutines path_Dir cacheDir st1 sched) w req2 t2 now2 =
    Some (record_call (run_goroutines path_Dir cacheDir st1 sched)
                      (CallCacheGet (key req2)),
          serve' w cp) /\
  factory_calls (calls (record_call (run_goroutines path_Dir cacheDir st1 sched)
                                    (CallCacheGet (key req2)))) =
    factory_calls (calls st1).
Proof.
  intros Hflag Hcp. destruct (run_goroutines_cache sched st1) as [Hc Hcalls].
  split.
  - apply draw_hit; [exact Hflag |]. rewrite Hc. exact Hcp.
  - unfold record_call. cbn [calls]. rewrite Hcalls, factory_calls_app. cbn. lia.
Qed.

(** A request whose generator fails caches nothing: an identical request
    that follows invokes the generator registry again. *)
Lemma failed_render_not_cached (st : world C) req t now f err w2 now2 :
  disableCache = false ->
  cache_Get (pngCache st) (key req) = None ->
  factory t = Some f -> f (mkOptions (Query req)) = inr err ->
  exists st1 w1 st2 w2',
    draw st newResponseWriter req t now = Some (st1, w1) /\
    resp_status (response_of w1) = StatusInternalServerError /\
    draw st1 w2 req t now2 = Some (st2, w2') /\
    factory_calls (calls st2) = (2 + factory_calls (calls st))%nat.
Proof.
  intros Hflag Hget Hf Herr.
  eexists _, _, _, _. split; [apply (draw_miss_err st _ req t now f err); assumption |].
  split; [rewrite response_of_http_Error by reflexivity; reflexivity |].
  split.
  - apply (draw_miss_err _ w2 req t now2 f err); assumption.
  - unfold record_call. cbn [calls]. rewrite !factory_calls_app. cbn. lia.
Qed.

(** C9.  With the cache-disable flag set, a render request that returns
    leaves the tile cache, the disk and the set of persistence goroutines
    as they were, makes no cache call (no lookup, no insert, no start of
    persistence) and invokes the generator registry exactly once; an
    identical request that follows invokes it once more.  With the flag
    unset, after a first request answered with status 200, and whichever
    persistence goroutines have run meanwhile, an identical second request
    is answered from the entry the cache holds under the key, and the
    generator registry is not invoked again. *)
Theorem cache_bypass_and_reuse :
  forall (st : world C) req t now st1 w1,
    draw st newResponseWriter req t now = Some (st1, w1) ->
    (disableCache = true ->
       pngCache st1 = pngCache st /\ disk st1 = disk st /\
       goroutines st1 = goroutines st /\
       (exists new,
          calls st1 = calls st ++ new /\
          forallb (fun c => negb (is_cache_call c)) new = true /\
          factory_calls new = 1%nat) /\
       forall w now2, exists st2 w2,
         draw st1 w req t now2 = Some (st2, w2) /\
         pngCache st2 = pngCache st /\
         factory_calls (calls st2) = (2 + factory_calls (calls st))%nat) /\
    (disableCache = false ->
       resp_status (response_of w1) = StatusOK ->
       exists cp,
         cache_Get (pngCache st1) (key req) = Some cp /\
         forall sched w now2,
           let st1' := run_goroutines path_Dir cacheDir st1 sched in
           draw st1' w req t now2 =
             Some (record_call st1' (CallCacheGet (key req)), serve' w cp) /\
           factory_calls (calls (record_call st1' (CallCacheGet (key req)))) =
             factory_calls (calls st1)).
Proof.
  intros st req t now st1 w1 Hdraw.
  assert (Hfresh : wrote newResponseWriter = None) by reflexivity.
  split; intros Hflag.
  - destruct (factory t) as [f |] eqn:Hf;
      [| rewrite (draw_panic st _ req t now Hf (or_introl Hflag)) in Hdraw;
         discriminate].
    rewrite (draw_disabled st _ req t now f Hflag Hf) in Hdraw.
    assert (Hfirst :
      pngCache st1 = pngCache st /\ disk st1 = disk st /\
      goroutines st1 = goroutines st /\
      exists new, calls st1 = calls st ++ new /\
        forallb (fun c => negb (is_cache_call c)) new = true /\
        factory_calls new = 1%nat).
    { destruct (f (mkOptions (Query req))) as [i | err]; injection Hdraw as <- <-.
      - repeat (split; [reflexivity |]).
        exists [CallFactory t (mkOptions (Query req)); CallEncode].
        unfold record_call. cbn [calls]. rewrite <- app_assoc. auto.
      - repeat (split; [reflexivity |]).
        exists [CallFactory t (mkOptions (Query req))]. auto. }
    destruct Hfirst as (Hc & Hdisk & Hgo & new & Hcalls & Hnone & Hone).
    repeat (split; [assumption |]).
    split; [exists new; auto |].
    intros w now2. rewrite (draw_disabled st1 w req t now2 f Hflag Hf).
    destruct (f (mkOptions (Query req))) as [i | err]; eexists _, _;
      (split; [reflexivity |]); unfold record_call; cbn [pngCache calls];
      (split; [exact Hc |]);
      rewrite Hcalls, !factory_calls_app, Hone; cbn; lia.
  - intros Hok.
    destruct (cached_after_ok st req t now st1 w1 Hflag Hdraw Hok) as (cp & Hcp & _).
    exists cp. split; [exact Hcp |].
    intros sched w now2 st1'. subst st1'.
    apply served_from_entry; assumption.
Qed.

(** C10. The request-URI-to-cache-key mapping is not injective: the
    distinct request URIs [/m?a=1,b=2] and [/m?a=1&b=2] map to the same
    cache key, hence to the same disk-mirror path under every cache root.
    And two requests whose URIs map to the same key share one cache entry:
    once the first is answered with status 200, the second is answered
    with the bytes of the first and the generator registry is not invoked
    for it. *)
Theorem cache_key_not_injective :
  (exists u1 u2 : gostring,
     u1 = str "/m?a=1,b=2" /\ u2 = str "/m?a=1&b=2" /\
     u1 <> u2 /\
     fsNameFromURL u1 = fsNameFromURL u2 /\
     forall root, cachefn root (fsNameFromURL u1) = cachefn root (fsNameFromURL u2)) /\
  (forall (st : world C) req1 req2 t1 t2 now st1 w1,
     disableCache = false ->
     key req1 = key req2 ->
     draw st newResponseWriter req1 t1 now = Some (st1, w1) ->
     resp_status (response_of w1) = StatusOK ->
     forall sched now2, exists st2 w2,
       draw (run_goroutines path_Dir cacheDir st1 sched) newResponseWriter
            req2 t2 now2 = Some (st2, w2) /\
       resp_status (response_of w2) = StatusOK /\
       resp_body (response_of w2) = resp_body (response_of w1) /\
       factory_calls (calls st2) = factory_calls (calls st1)).
Proof.
  split.
  - exists (str "/m?a=1,b=2"), (str "/m?a=1&b=2").
    assert (Hkey : fsNameFromURL (str "/m?a=1,b=2") = fsNameFromURL (str "/m?a=1&b=2"))
      by (vm_compute; reflexivity).
    split; [reflexivity | split; [reflexivity | split; [| split]]].
    + vm_compute. discriminate.
    + exact Hkey.
    + intros root. rewrite Hkey. reflexivity.
  - intros st req1 req2 t1 t2 now st1 w1 Hflag Hkey Hdraw Hok sched now2.
    destruct (cached_after_ok st req1 t1 now st1 w1 Hflag Hdraw Hok)
      as (cp & Hcp & Hbody).
    rewrite Hkey in Hcp.
    destruct (served_from_entry st1 cp sched newResponseWriter req2 t2 now2 Hflag Hcp)
      as [Hd Hn].
    eexists _, _. split; [exact Hd |].
    destruct (serve_headers newResponseWriter cp eq_refl) as (Hst & _ & _ & _ & Hb).
    split; [exact Hst |]. split; [| exact Hn].
    rewrite Hb, Hbody. reflexivity.
Qed.

End HandlerFacts.

(** ** The properties on the sample server *)

Lemma cache_key_mapping_witness :
  Forall (fun r => 0 <= r) (str "/solid?z=2&c=0,0") /\
  length (fracserv.fsNameFromURL (str "/solid?z=2&c=0,0")) =
    length (str "/solid?z=2&c=0,0") /\
  fracserv.fsNameFromURL (str "/solid?z=2&c=0,0") !! 6%nat =
    Some (rune_of_ascii "/"%char) /\
  fst (fracserv.savePngFromCache Reference.dirname Sample.cacheDir Sample.cache1
         Sample.disk0 7000000000 (fracserv.fsNameFromURL (str "/solid?z=2&c=0,0")))
    !! str "/tmp/fractals/solid/z=2,c=0,0" =
  Some (fracserv.File (fracserv.mkFile Sample.png_bytes Sample.t0 Sample.t0)).
Proof.
  pose proof (cache_key_mapping Reference.dirname Sample.cacheDir
                (str "/solid?z=2&c=0,0") (str_nonneg _))
    as ((Hlen & Hchar) & _ & Hfile & _).
  split; [apply str_nonneg |]. split; [exact Hlen |]. split.
  - exact (Hchar 6%nat (rune_of_ascii "?"%char) eq_refl).
  - refine (Hfile Sample.cache1 Sample.disk0 7000000000 Sample.entry0 _ _ _).
    + vm_compute. reflexivity.
    + vm_compute. reflexivity.
    + right. vm_compute. repeat split; discriminate.
Defined.

Lemma persistence_by_existence_witness :
  (* nothing at the path: the entry is written and stamped *)
  fracserv.os_Stat Sample.disk0 (fracserv.cachefn Sample.cacheDir Sample.key0) = false /\
  fst (fracserv.savePngFromCache Reference.dirname Sample.cacheDir Sample.cache1
         Sample.disk0 7000000000 Sample.key0)
    !! fracserv.cachefn Sample.cacheDir Sample.key0 =
  Some (fracserv.File (fracserv.mkFile Sample.png_bytes Sample.t0 Sample.t0)) /\
  (* a stale file at the path: it stays *)
  fracserv.os_Stat Sample.disk_stale (fracserv.cachefn Sample.cacheDir Sample.key0) = true /\
  fst (fracserv.savePngFromCache Reference.dirname Sample.cacheDir Sample.cache1
         Sample.disk_stale 7000000000 Sample.key0)
    !! fracserv.cachefn Sample.cacheDir Sample.key0 =
  Some (fracserv.File Sample.stale_file).
Proof.
  assert (Hno : fracserv.os_Stat Sample.disk0
                  (fracserv.cachefn Sample.cacheDir Sample.key0) = false)
    by (vm_compute; reflexivity).
  assert (Hyes : fracserv.os_Stat Sample.disk_stale
                   (fracserv.cachefn Sample.cacheDir Sample.key0) = true)
    by (vm_compute; reflexivity).
  split; [exact Hno |]. split; [| split; [exact Hyes |]].
  - refine (proj2 (persistence_by_existence Reference.dirname Sample.cacheDir
                     Sample.cache1 Sample.disk0 7000000000 Sample.key0)
                  Hno Sample.entry0 _ _).
    + vm_compute. reflexivity.
    + right. vm_compute. repeat split; discriminate.
  - rewrite (proj1 (proj1 (persistence_by_existence Reference.dirname Sample.cacheDir
                             Sample.cache1 Sample.disk_stale 7000000000 Sample.key0)
                          Hyes)).
    vm_compute. reflexivity.
Defined.

Lemma render_response_witness :
  exists st' w',
    Sample.draw false Sample.world0 fracserv.newResponseWriter Sample.request
                (str "solid") Sample.t0 = Some (st', w') /\
    fracserv.resp_status (fracserv.response_of w') = fracserv.StatusOK /\
    fracserv.resp_header (fracserv.response_of w') !! str "Last-Modified" =
      Some (Sample.Time_Format Sample.t0) /\
    fracserv.resp_header (fracserv.response_of w') !! str "Expires" =
      Some (Sample.Time_Format (Sample.t0 + 3600000000000)) /\
    fracserv.resp_body (fracserv.response_of w') = Sample.png_bytes.
Proof.
  destruct (Sample.draw false Sample.world0 fracserv.newResponseWriter Sample.request
              (str "solid") Sample.t0) as [[st' w'] |] eqn:E;
    [| vm_compute in E; discriminate E].
  assert (Hok : fracserv.resp_status (fracserv.response_of w') = fracserv.StatusOK).
  { vm_compute in E. injection E as <- <-. reflexivity. }
  exists st', w'. split; [reflexivity |]. split; [exact Hok |].
  destruct (proj1 (render_response _ _ _ _ _ _ _ _ _ _ _ _ _ _ E Hok) eq_refl)
    as (cp & Hcp & _ & Hlm & Hexp & Hbody).
  assert (Hentry : cp = Sample.entry0).
  { vm_compute in E. injection E as <- <-. vm_compute in Hcp.
    injection Hcp as <-. reflexivity. }
  subst cp. auto.
Defined.

(** C4, as stated, fails: with the cache-disable flag set the sample
    request is answered with status 200 and the PNG bytes, but the response
    has neither a [Last-Modified] nor an [Expires] header. *)
Lemma render_response_counterexample :
  exists st' w',
    Sample.draw true Sample.world0 fracserv.newResponseWriter Sample.request
                (str "solid") Sample.t0 = Some (st', w') /\
    fracserv.resp_status (fracserv.response_of w') = fracserv.StatusOK /\
    fracserv.resp_body (fracserv.response_of w') = Sample.png_bytes /\
    fracserv.resp_header (fracserv.response_of w') !! str "Last-Modified" = None /\
    fracserv.resp_header (fracserv.response_of w') !! str "Expires" = None.
Proof.
  eexists _, _. split; [vm_compute; reflexivity |].
  vm_compute. auto.
Qed.

Lemma render_failures_witness :
  Sample.factory (str "solid") = Some Sample.newSolid /\
  Sample.factory (str "broken") = Some Sample.newBroken /\
  (exists st' w',
     Sample.draw false Sample.world0 fracserv.newResponseWriter Sample.bad_request
                 (str "solid") Sample.t0 = Some (st', w') /\
     fracserv.resp_status (fracserv.response_of w') = 500 /\
     fracserv.resp_body (fracserv.response_of w') =
       Sample.string_bytes (str "bad option" ++ str (String (ascii_of_nat 10) EmptyString))) /\
  (exists st' w',
     Sample.draw false Sample.world0 fracserv.newResponseWriter Sample.request
                 (str "broken") Sample.t0 = Some (st', w') /\
     fracserv.resp_status (fracserv.response_of w') = 200 /\
     fracserv.resp_body (fracserv.response_of w') = [Byte.x89]).
Proof.
  assert (Hs : Sample.factory (str "solid") = Some Sample.newSolid) by reflexivity.
  assert (Hb : Sample.factory (str "broken") = Some Sample.newBroken) by reflexivity.
  assert (Hmiss : forall req,
            false = true \/
            fracserv.cache_Get (fracserv.pngCache Sample.world0)
              (fracserv.fsNameFromURL (fracserv.RequestURI req)) = None)
    by (intros req; right; apply lookup_empty).
  split; [exact Hs |]. split; [exact Hb |]. split.
  - destruct (proj1 (render_failures _ _ Sample.Error_text _ Sample.png_Encode
                       Sample.Time_Format Sample.string_bytes false
                       Sample.world0 Sample.bad_request (str "solid") Sample.t0
                       Sample.newSolid Hs (Hmiss _))
                    (str "bad option") eq_refl)
      as (st' & w' & Hd & Hst & Hbody & _).
    exists st', w'. auto.
  - destruct (proj2 (render_failures _ _ Sample.Error_text _ Sample.png_Encode
                       Sample.Time_Format Sample.string_bytes false
                       Sample.world0 Sample.request (str "broken") Sample.t0
                       Sample.newBroken Hb (Hmiss _))
                    Sample.Broken [Byte.x89] (str "encode failed") eq_refl eq_refl)
      as (st' & w' & Hd & Hst & Hbody & _).
    exists st', w'. auto.
Defined.

(** C5, as stated, fails: the encoder fails on the image of [broken] after
    one byte, and the client receives status 200 with that byte as body,
    where a generator failure gives status 500; the byte is cached too. *)
Lemma render_failures_counterexample :
  exists st' w',
    snd (Sample.png_Encode Sample.Broken) = Some (str "encode failed") /\
    Sample.draw false Sample.world0 fracserv.newResponseWriter Sample.request
                (str "broken") Sample.t0 = Some (st', w') /\
    fracserv.resp_status (fracserv.response_of w') = fracserv.StatusOK /\
    fracserv.resp_status (fracserv.response_of w') <> fracserv.StatusInternalServerError /\
    fracserv.resp_body (fracserv.response_of w') = [Byte.x89] /\
    fracserv.pngCache st' !! Sample.key0 = Some (fracserv.mkCachedPng Sample.t0 [Byte.x89]).
Proof.
  eexists _, _. split; [reflexivity |]. split; [vm_compute; reflexivity |].
  vm_compute. repeat split; try reflexivity. discriminate.
Qed.

Lemma cache_bypass_and_reuse_witness :
  (* flag set: two identical requests, two generator invocations *)
  (exists st1 w1 st2 w2,
     Sample.draw true Sample.world0 fracserv.newResponseWriter Sample.request
                 (str "solid") Sample.t0 = Some (st1, w1) /\
     Sample.draw true st1 fracserv.newResponseWriter Sample.request
                 (str "solid") (Sample.t0 + 1) = Some (st2, w2) /\
     fracserv.pngCache st2 = fracserv.pngCache Sample.world0 /\
     fracserv.factory_calls (fracserv.calls st2) = 2%nat) /\
  (* flag unset: the second one is served from the cache *)
  (exists st1 w1 st2 w2,
     Sample.draw false Sample.world0 fracserv.newResponseWriter Sample.request
                 (str "solid") Sample.t0 = Some (st1, w1) /\
     Sample.draw false
       (run_goroutines Reference.dirname Sample.cacheDir st1 [(0%nat, Sample.t0 + 1)])
       fracserv.newResponseWriter Sample.request (str "solid") (Sample.t0 + 2) =
       Some (st2, w2) /\
     fracserv.factory_calls (fracserv.calls st1) = 1%nat /\
     fracserv.factory_calls (fracserv.calls st2) = 1%nat /\
     fracserv.response_of w2 = fracserv.response_of w1).
Proof.
  split.
  - destruct (Sample.draw true Sample.world0 fracserv.newResponseWriter Sample.request
                (str "solid") Sample.t0) as [[st1 w1] |] eqn:E;
      [| vm_compute in E; discriminate E].
    destruct (proj1 (cache_bypass_and_reuse _ _ Sample.Error_text _ Sample.png_Encode
                       Sample.Time_Format Sample.string_bytes Reference.dirname
                       Sample.cacheDir true _ _ _ _ _ _ E) eq_refl)
      as (_ & _ & _ & _ & Hsecond).
    destruct (Hsecond fracserv.newResponseWriter (Sample.t0 + 1))
      as (st2 & w2 & Hd2 & Hc2 & Hn2).
    exists st1, w1, st2, w2. auto.
  - destruct (Sample.draw false Sample.world0 fracserv.newResponseWriter Sample.request
                (str "solid") Sample.t0) as [[st1 w1] |] eqn:E;
      [| vm_compute in E; discriminate E].
    assert (Hok : fracserv.resp_status (fracserv.response_of w1) = fracserv.StatusOK).
    { vm_compute in E. injection E as <- <-. reflexivity. }
    destruct (proj2 (cache_bypass_and_reuse _ _ Sample.Error_text _ Sample.png_Encode
                       Sample.Time_Format Sample.string_bytes Reference.dirname
                       Sample.cacheDir false _ _ _ _ _ _ E) eq_refl Hok)
      as (cp & Hcp & Hsecond).
    destruct (Hsecond [(0%nat, Sample.t0 + 1)] fracserv.newResponseWriter (Sample.t0 + 2))
      as (Hd2 & Hn2).
    eexists st1, w1, _, _. split; [reflexivity |]. split; [exact Hd2 |].
    assert (Hone : fracserv.factory_calls (fracserv.calls st1) = 1%nat).
    { vm_compute in E. injection E as <- <-. reflexivity. }
    split; [exact Hone |]. split; [rewrite Hn2; exact Hone |].
    vm_compute in E. injection E as <- <-. vm_compute in Hcp.
    injection Hcp as <-. vm_compute. reflexivity.
Defined.

Lemma cache_key_not_injective_witness :
  fracserv.RequestURI Sample.request_comma <> fracserv.RequestURI Sample.request_amp /\
  fracserv.fsNameFromURL (fracserv.RequestURI Sample.request_comma) =
    fracserv.fsNameFromURL (fracserv.RequestURI Sample.request_amp) /\
  exists st1 w1 st2 w2,
    Sample.draw false Sample.world0 fracserv.newResponseWriter Sample.request_comma
                (str "solid") Sample.t0 = Some (st1, w1) /\
    Sample.draw false
      (run_goroutines Reference.dirname Sample.cacheDir st1 [(0%nat, Sample.t0 + 1)])
      fracserv.newResponseWriter Sample.request_amp (str "solid") (Sample.t0 + 2) =
      Some (st2, w2) /\
    fracserv.resp_body (fracserv.response_of w2) = Sample.png_bytes /\
    fracserv.factory_calls (fracserv.calls st2) = 1%nat.
Proof.
  assert (Hkey : fracserv.fsNameFromURL (fracserv.RequestURI Sample.request_comma) =
                 fracserv.fsNameFromURL (fracserv.RequestURI Sample.request_amp))
    by (vm_compute; reflexivity).
  split; [vm_compute; discriminate |]. split; [exact Hkey |].
  destruct (Sample.draw false Sample.world0 fracserv.newResponseWriter
              Sample.request_comma (str "solid") Sample.t0) as [[st1 w1] |] eqn:E;
    [| vm_compute in E; discriminate E].
  assert (Hok : fracserv.resp_status (fracserv.response_of w1) = fracserv.StatusOK).
  { vm_compute in E. injection E as <- <-. reflexivity. }
  destruct (proj2 (cache_key_not_injective _ _ Sample.Error_text _ Sample.png_Encode
                     Sample.Time_Format Sample.string_bytes Reference.dirname
                     Sample.cacheDir false)
                  Sample.world0 Sample.request_comma Sample.request_amp
                  (str "solid") (str "solid") Sample.t0 st1 w1
                  eq_refl Hkey E Hok [(0%nat, Sample.t0 + 1)] (Sample.t0 + 2))
    as (st2 & w2 & Hd2 & _ & Hbody & Hn).
  exists st1, w1, st2, w2. split; [reflexivity |]. split; [exact Hd2 |].
  vm_compute in E. injection E as <- <-. split.
  - rewrite Hbody. reflexivity.
  - rewrite Hn. reflexivity.
Defined.

(** ** The colour mapper *)

(** *** Binary digits *)

Lemma digits2_pos_size p : digits2_pos p = Pos.size p.
Proof. induction p as [p IH | p IH |]; cbn; rewrite ?IH; reflexivity. Qed.

Lemma Zdigits2_nonneg m : 0 <= Zdigits2 m.
Proof. destruct m; cbn; lia. Qed.

Lemma Zpos_digits_bounds p :
  2 ^ (Zpos (digits2_pos p) - 1) <= Zpos p < 2 ^ Zpos (digits2_pos p).
Proof.
  rewrite digits2_pos_size.
  pose proof (Pos.size_gt p) as Hgt. pose proof (Pos.size_le p) as Hle.
  apply Pos2Z.pos_lt_pos in Hgt. apply Pos2Z.pos_le_pos in Hle.
  rewrite Pos2Z.inj_pow in Hgt, Hle.
  split; [| exact Hgt].
  replace (Zpos (Pos.size p)) with (Zpos (Pos.size p) - 1 + 1) in Hle by lia.
  rewrite Z.pow_add_r in Hle by lia. change (2 ^ 1) with 2 in Hle. lia.
Qed.

Lemma Zdigits2_le m k : 0 <= m -> 0 <= k -> m < 2 ^ k -> Zdigits2 m <= k.
Proof.
  intros Hm Hk Hlt. destruct m as [| p | p]; cbn; [lia | | lia].
  destruct (Z.le_gt_cases (Zpos (digits2_pos p)) k) as [Hle | Hgt]; [exact Hle |].
  pose proof (Zpos_digits_bounds p) as [Hlow _].
  assert (2 ^ k <= 2 ^ (Zpos (digits2_pos p) - 1)) by (apply Z.pow_le_mono_r; lia).
  lia.
Qed.

Lemma Zdigits2_lt_pow m : 0 <= m -> m < 2 ^ Zdigits2 m.
Proof.
  intros Hm. destruct m as [| p | p]; cbn; [lia | | lia].
  apply Zpos_digits_bounds.
Qed.

(** *** Right shifts *)

Lemma shr_1_m r : 0 <= shr_m r -> shr_m (shr_1 r) = shr_m r / 2.
Proof.
  destruct r as [m rr s]. cbn [shr_m]. intros Hm.
  destruct m as [| [p | p |] | p]; cbn [shr_1 shr_m].
  - reflexivity.
  - apply Z.div_unique with (r := 1); lia.
  - apply Z.div_unique with (r := 0); lia.
  - reflexivity.
  - lia.
Qed.

Lemma iter_shr_1_m p r :
  0 <= shr_m r -> shr_m (SpecFloat.iter_pos shr_1 p r) = shr_m r / 2 ^ Zpos p.
Proof.
  revert r. induction p as [p IH | p IH |]; intros r Hr; cbn [SpecFloat.iter_pos].
  - assert (H1 : 0 <= shr_m (shr_1 r)).
    { rewrite shr_1_m by exact Hr. apply Z.div_pos; lia. }
    assert (H2 : 0 <= shr_m (SpecFloat.iter_pos shr_1 p (shr_1 r))).
    { rewrite IH by exact H1. apply Z.div_pos; [exact H1 | lia]. }
    rewrite IH by exact H2. rewrite IH by exact H1. rewrite shr_1_m by exact Hr.
    rewrite !Z.div_div by lia. f_equal.
    rewrite Pos2Z.inj_xI, Z.pow_add_r, Z.pow_mul_r by lia.
    change (2 ^ 2) with 4. change (2 ^ 1) with 2.
    replace (4 ^ Zpos p) with (2 ^ Zpos p * 2 ^ Zpos p); [lia |].
    rewrite <- Z.pow_add_r by lia. replace (Zpos p + Zpos p) with (2 * Zpos p) by lia.
    rewrite Z.pow_mul_r by lia. reflexivity.
  - assert (H2 : 0 <= shr_m (SpecFloat.iter_pos shr_1 p r)).
    { rewrite IH by exact Hr. apply Z.div_pos; [exact Hr | lia]. }
    rewrite IH by exact H2. rewrite IH by exact Hr.
    rewrite !Z.div_div by lia. f_equal.
    rewrite Pos2Z.inj_xO. rewrite <- Z.pow_add_r by lia. f_equal. lia.
  - rewrite shr_1_m by exact Hr. reflexivity.
Qed.

Lemma div_pow2_nonneg m n : 0 <= m -> 0 <= m / 2 ^ n.
Proof. intros Hm. apply Z_div_nonneg_nonneg; [exact Hm | apply Z.pow_nonneg; lia]. Qed.

Lemma shr_record_of_loc_m m l : shr_m (shr_record_of_loc m l) = m.
Proof. destruct l as [| []]; reflexivity. Qed.

(** What [shr_fexp] returns for a non-negative mantissa: the mantissa
    shifted right, at the exponent [fexp] asks for, or the input. *)
Lemma shr_fexp_spec m e l :
  0 <= m ->
  let n := fexp prec emax (Zdigits2 m + e) - e in
  shr_m (fst (shr_fexp prec emax m e l)) = (if 0 <? n then m / 2 ^ n else m) /\
  snd (shr_fexp prec emax m e l) = (if 0 <? n then e + n else e).
Proof.
  intros Hm n. unfold shr_fexp, shr. fold n.
  destruct n as [| p | p]; cbn [fst snd]; rewrite ?shr_record_of_loc_m; auto.
  rewrite iter_shr_1_m by (rewrite shr_record_of_loc_m; exact Hm).
  rewrite shr_record_of_loc_m. auto.
Qed.

Lemma div_pow2_digits m n :
  0 <= m -> 0 < n -> Zdigits2 (m / 2 ^ n) <= Z.max (Zdigits2 m - n) 0.
Proof.
  intros Hm Hn. pose proof (Zdigits2_lt_pow m Hm) as Hlt.
  pose proof (Zdigits2_nonneg m) as Hd.
  destruct (Z.le_gt_cases n (Zdigits2 m)) as [Hle | Hgt].
  - rewrite Z.max_l by lia. apply Zdigits2_le; [apply div_pow2_nonneg; lia | lia |].
    apply Z.div_lt_upper_bound; [lia |].
    rewrite <- Z.pow_add_r by lia. replace (n + (Zdigits2 m - n)) with (Zdigits2 m) by lia.
    exact Hlt.
  - rewrite Z.div_small; [cbn; lia |]. split; [exact Hm |].
    assert (2 ^ Zdigits2 m <= 2 ^ n) by (apply Z.pow_le_mono_r; lia). lia.
Qed.

Lemma round_nearest_even_bounds m l :
  0 <= m -> m <= round_nearest_even m l <= m + 1.
Proof.
  intros Hm. unfold round_nearest_even.
  destruct l as [| []]; try lia. destruct (Z.even m); lia.
Qed.

Lemma Zdigits2_succ m m' :
  0 <= m -> 0 <= m' <= m + 1 -> Zdigits2 m' <= Zdigits2 m + 1.
Proof.
  intros Hm Hm'. pose proof (Zdigits2_nonneg m). pose proof (Zdigits2_lt_pow m Hm).
  apply Zdigits2_le; [lia | lia |].
  rewrite Z.pow_add_r by lia. lia.
Qed.

(** Rounding a non-negative mantissa whose magnitude is below the overflow
    threshold yields a zero or a finite float of the given sign. *)
Lemma binary_round_aux_shape sx mx ex lx :
  0 <= mx -> Zdigits2 mx + ex <= emax - 1 -> ex <= emax - prec ->
  binary_round_aux prec emax sx mx ex lx = S754_zero sx \/
  exists m e, binary_round_aux prec emax sx mx ex lx = S754_finite sx m e.
Proof.
  intros Hm Hd He. unfold binary_round_aux.
  pose proof (shr_fexp_spec mx ex lx Hm) as [Hm1 He1]. cbv zeta in Hm1, He1.
  destruct (shr_fexp prec emax mx ex lx) as [mrs' e']. cbn [fst snd] in Hm1, He1.
  set (n := fexp prec emax (Zdigits2 mx + ex) - ex) in *.
  assert (Hm1' : 0 <= shr_m mrs').
  { rewrite Hm1. destruct (0 <? n); [apply div_pow2_nonneg; lia | exact Hm]. }
  assert (Hd1 : Zdigits2 (shr_m mrs') + e' <= emax - 1 /\ e' <= emax - prec).
  { rewrite Hm1, He1. destruct (Z.ltb_spec 0 n) as [Hn | Hn]; cbv iota; [| lia].
    pose proof (div_pow2_digits mx n Hm Hn).
    subst n. unfold fexp, emin, emax, prec in *. lia. }
  destruct Hd1 as [Hd1 He1'].
  set (m2 := round_nearest_even (shr_m mrs') (loc_of_shr_record mrs')).
  pose proof (round_nearest_even_bounds (shr_m mrs') (loc_of_shr_record mrs') Hm1') as Hm2.
  fold m2 in Hm2.
  assert (Hd2 : Zdigits2 m2 <= Zdigits2 (shr_m mrs') + 1)
    by (apply Zdigits2_succ; lia).
  assert (Hm2' : 0 <= m2) by lia.
  pose proof (shr_fexp_spec m2 e' loc_Exact Hm2') as [Hm3 He3]. cbv zeta in Hm3, He3.
  destruct (shr_fexp prec emax m2 e' loc_Exact) as [mrs'' e'']. cbn [fst snd] in Hm3, He3.
  set (n2 := fexp prec emax (Zdigits2 m2 + e') - e') in *.
  assert (Hm3' : 0 <= shr_m mrs'').
  { rewrite Hm3. destruct (0 <? n2); [apply div_pow2_nonneg; lia | exact Hm2']. }
  assert (He3' : e'' <= emax - prec).
  { rewrite He3. destruct (Z.ltb_spec 0 n2) as [Hn | Hn]; cbv iota; [| lia].
    subst n2. unfold fexp, emin, emax, prec in *. lia. }
  destruct (shr_m mrs'') as [| p | p]; [left; reflexivity | | lia].
  right. rewrite (proj2 (Z.leb_le _ _) He3'). eauto.
Qed.

(** A valid finite float is below [2 ^ emax]. *)
Lemma bounded_digits mx ex :
  bounded prec emax mx ex = true ->
  Zpos (digits2_pos mx) + ex <= emax /\ ex <= emax - prec.
Proof.
  unfold bounded, canonical_mantissa. intros Hb.
  apply andb_prop in Hb as [Hc He].
  apply Z.eqb_eq in Hc. apply Z.leb_le in He.
  unfold fexp, SpecFloat.emin, emax, prec in *. lia.
Qed.

Lemma quotient_digits a b s :
  0 < a -> 0 < b -> 0 <= s ->
  Zdigits2 (a * 2 ^ s / b) <= Z.max (Zdigits2 a + s - Zdigits2 b + 1) 0.
Proof.
  intros Ha Hb Hs.
  destruct a as [| pa | pa]; try lia. destruct b as [| pb | pb]; try lia.
  cbn [Zdigits2].
  pose proof (Zpos_digits_bounds pa) as [_ Hau].
  pose proof (Zpos_digits_bounds pb) as [Hbl _].
  set (da := Zpos (digits2_pos pa)) in *. set (db := Zpos (digits2_pos pb)) in *.
  assert (Hpow : 0 < 2 ^ s) by (apply Z.pow_pos_nonneg; lia).
  assert (Hnum : Zpos pa * 2 ^ s < 2 ^ (da + s)).
  { rewrite Z.pow_add_r by lia. nia. }
  assert (Hq : 0 <= Zpos pa * 2 ^ s / Zpos pb) by (apply Z.div_pos; nia).
  destruct (Z.le_gt_cases 0 (da + s - db + 1)) as [Hk | Hk].
  - rewrite Z.max_l by lia. apply Zdigits2_le; [exact Hq | exact Hk |].
    apply Z.div_lt_upper_bound; [lia |].
    assert (2 ^ (da + s) <= 2 ^ (db - 1) * 2 ^ (da + s - db + 1)).
    { rewrite <- Z.pow_add_r by lia. apply Z.pow_le_mono_r; lia. }
    assert (0 < 2 ^ (da + s - db + 1)) by (apply Z.pow_pos_nonneg; lia).
    nia.
  - rewrite Z.max_r by lia. rewrite Z.div_small; [cbn; lia |].
    split; [nia |].
    assert (2 ^ (da + s) <= 2 ^ (db - 1)) by (apply Z.pow_le_mono_r; lia).
    lia.
Qed.

(** Dividing a valid finite float by a finite float of magnitude at least
    two cannot overflow: the quotient is a zero or a finite float, with the
    sign of the division. *)
Lemma SFdiv_shape sx mx ex sy my ey :
  bounded prec emax mx ex = true ->
  2 <= Zpos (digits2_pos my) + ey ->
  SFdiv prec emax (S754_finite sx mx ex) (S754_finite sy my ey) = S754_zero (xorb sx sy) \/
  exists m e,
    SFdiv prec emax (S754_finite sx mx ex) (S754_finite sy my ey) =
    S754_finite (xorb sx sy) m e.
Proof.
  intros Hb Hy. apply bounded_digits in Hb as [Hd He].
  unfold SFdiv, SFdiv_core_binary. cbn [Zdigits2].
  set (d1 := Zpos (digits2_pos mx)) in *. set (d2 := Zpos (digits2_pos my)) in *.
  set (e' := Z.min (fexp prec emax (d1 + ex - (d2 + ey))) (ex - ey)).
  set (s := ex - ey - e').
  assert (Hs : 0 <= s) by (subst s e'; lia).
  set (m' := match s with Z.pos _ => Z.shiftl (Z.pos mx) s | Z0 => Z.pos mx | Z.neg _ => 0 end).
  assert (Hm' : m' = Zpos mx * 2 ^ s).
  { subst m'. destruct s as [| p | p]; [rewrite Z.pow_0_r; lia | | lia].
    apply Z.shiftl_mul_pow2. lia. }
  pose proof (quotient_digits (Zpos mx) (Zpos my) s ltac:(lia) ltac:(lia) Hs) as Hq.
  cbn [Zdigits2] in Hq. fold d1 d2 in Hq. rewrite <- Hm' in Hq.
  assert (Hq0 : 0 <= m' / Zpos my).
  { apply Z.div_pos; [| lia]. rewrite Hm'. apply Z.mul_nonneg_nonneg; [lia |].
    apply Z.pow_nonneg. lia. }
  unfold Z.div in Hq, Hq0. destruct (Z.div_eucl m' (Zpos my)) as [q r].
  cbn [fst] in Hq, Hq0.
  apply binary_round_aux_shape; [exact Hq0 | |].
  - subst s e'. unfold fexp, SpecFloat.emin, emax, prec in *. lia.
  - subst e'. unfold fexp, SpecFloat.emin, emax, prec in *. lia.
Qed.

Lemma exact_float_shape s m e :
  exact_float s m e = S754_zero s \/
  exists m' e', exact_float s m e = S754_finite s m' e'.
Proof.
  unfold exact_float. destruct m as [| p | p]; auto.
  destruct (shl_align _ _ _) as [m' e']. eauto.
Qed.

Lemma math_Floor_nonneg x : nonneg_finite x -> nonneg_finite (math_Floor x).
Proof.
  destruct x as [s | s | | [|] m e]; cbn [nonneg_finite math_Floor]; try tauto.
  intros _. destruct (0 <=? e); [exact I |].
  destruct (exact_float_shape false (Z.abs (Z.shiftr (cond_Zopp false (Z.pos m)) (- e))) 0)
    as [-> | (m' & e' & ->)]; exact I.
Qed.

Lemma pos_iter_xO p d : Zpos (Pos.iter xO p d) = Zpos p * 2 ^ Zpos d.
Proof.
  induction d as [| d IH] using Pos.peano_ind.
  - cbn. lia.
  - rewrite Pos.iter_succ, Pos2Z.inj_xO, IH, Pos2Z.inj_succ, Z.pow_succ_r by lia. lia.
Qed.

(** [shl_align] keeps the value: it lowers the exponent and scales the
    mantissa to match. *)
Lemma shl_align_spec p e t :
  snd (shl_align p e t) <= e /\
  Zpos (fst (shl_align p e t)) = Zpos p * 2 ^ (e - snd (shl_align p e t)).
Proof.
  unfold shl_align. destruct (t - e) as [| d | d] eqn:Ed; cbn [fst snd].
  - rewrite Z.sub_diag. cbn. lia.
  - rewrite Z.sub_diag. cbn. lia.
  - split; [lia |]. rewrite pos_iter_xO. f_equal. f_equal. lia.
Qed.

(** Truncating an exactly represented non-negative value with a negative
    exponent. *)
Lemma int_of_exact_float r e :
  0 <= r -> e < 0 -> r / 2 ^ (- e) <= int_max ->
  int_of_float64 (exact_float false r e) = r / 2 ^ (- e).
Proof.
  intros Hr He Hmax. unfold exact_float.
  destruct r as [| p | p]; [cbn; symmetry; apply Z.div_0_l | | lia].
  { apply Z.pow_nonzero; lia. }
  pose proof (shl_align_spec p e (fexp prec emax (Zpos (digits2_pos p) + e)))
    as [Hle Hval].
  destruct (shl_align _ _ _) as [m' e']. cbn [fst snd] in Hle, Hval.
  unfold int_of_float64. destruct (Z.leb_spec 0 e') as [H0 | _]; [lia |].
  cbn [cond_Zopp].
  assert (Hdiv : Zpos m' / 2 ^ (- e') = Zpos p / 2 ^ (- e)).
  { rewrite Hval. replace (- e') with (- e + (e - e')) by lia.
    rewrite Z.pow_add_r by lia.
    apply Z.div_mul_cancel_r; apply Z.pow_nonzero; lia. }
  rewrite Hdiv.
  assert (H0 : 0 <= Zpos p / 2 ^ (- e)) by (apply div_pow2_nonneg; lia).
  destruct (Z.leb_spec int_min (Zpos p / 2 ^ (- e))) as [_ | Hlt];
    [| unfold int_min in Hlt; lia].
  destruct (Z.leb_spec (Zpos p / 2 ^ (- e)) int_max) as [_ | Hgt]; [reflexivity | lia].
Qed.

Lemma float64_of_int_6 :
  float64_of_int 6 = S754_finite false 6755399441055744 (-50).
Proof. vm_compute. reflexivity. Qed.

Lemma float64_of_int_60 :
  float64_of_int 60 = S754_finite false 8444249301319680 (-47).
Proof. vm_compute. reflexivity. Qed.

(** The remainder modulo 6 of a non-negative finite float truncates to one
    of 0, ..., 5. *)
Lemma int_Mod_6 x :
  nonneg_finite x ->
  0 <= int_of_float64 (math_Mod x (float64_of_int 6)) < 6.
Proof.
  rewrite float64_of_int_6.
  destruct x as [s | s | | [|] mx ex]; cbn [nonneg_finite]; try tauto; intros _.
  - cbn. lia.
  - cbn [math_Mod].
    set (e0 := Z.min ex (-50)).
    set (X := Zpos mx * 2 ^ (ex - e0)).
    set (Y := 6755399441055744 * 2 ^ (-50 - e0)).
    assert (He0 : e0 <= -50) by (subst e0; lia).
    assert (HY : Y = 6 * 2 ^ (- e0)).
    { subst Y. replace (- e0) with (50 + (-50 - e0)) by lia.
      rewrite Z.pow_add_r by lia. change (2 ^ 50) with 1125899906842624. lia. }
    assert (Hpow : 0 < 2 ^ (- e0)) by (apply Z.pow_pos_nonneg; lia).
    pose proof (Z.mod_pos_bound X Y ltac:(lia)) as [HR0 HRY].
    assert (Hlt : X mod Y / 2 ^ (- e0) < 6).
    { apply Z.div_lt_upper_bound; [exact Hpow | lia]. }
    rewrite int_of_exact_float; [| exact HR0 | lia | unfold int_max; lia].
    split; [apply div_pow2_nonneg; exact HR0 | exact Hlt].
Qed.

Lemma f64_div_nonneg h :
  valid_binary prec emax h = true ->
  SFleb (S754_zero false) h = true ->
  h <> S754_infinity false ->
  nonneg_finite (h / float64_of_int 60)%f64.
Proof.
  intros Hv Hle Hinf. rewrite float64_of_int_60. unfold f64_div.
  destruct h as [s | s | | s m e].
  - cbn. exact I.
  - destruct s; [discriminate Hle | congruence].
  - discriminate Hle.
  - destruct s; [discriminate Hle |].
    cbn [valid_binary] in Hv.
    destruct (SFdiv_shape false m e false 8444249301319680 (-47) Hv)
      as [-> | (m' & e' & ->)]; [cbn; lia | exact I | exact I].
Qed.

Lemma sector_bounds h :
  valid_binary prec emax h = true ->
  SFleb (S754_zero false) h = true ->
  h <> S754_infinity false ->
  0 <= fractal.sector h < 6.
Proof.
  intros Hv Hle Hinf. unfold fractal.sector.
  apply int_Mod_6, math_Floor_nonneg, f64_div_nonneg; assumption.
Qed.

Lemma HSVToRGBA_sector h s v : 0 <= fractal.sector h < 6 -> fractal.A (fractal.HSVToRGBA h s v) = 255.
Proof.
  intros Hhi. unfold fractal.HSVToRGBA. fold (fractal.sector h).
  assert (Hcases : fractal.sector h = 0 \/ fractal.sector h = 1 \/
                   fractal.sector h = 2 \/ fractal.sector h = 3 \/
                   fractal.sector h = 4 \/ fractal.sector h = 5) by lia.
  destruct Hcases as [-> | [-> | [-> | [-> | [-> | ->]]]]]; reflexivity.
Qed.

(** Outside the six sectors nothing is selected: the result is the zero
    colour, which is transparent. *)
Lemma HSVToRGBA_unmapped h s v :
  fractal.sector h < 0 \/ 5 < fractal.sector h ->
  fractal.HSVToRGBA h s v = fractal.mkRGBA 0 0 0 0.
Proof.
  intros Hhi. unfold fractal.HSVToRGBA. fold (fractal.sector h).
  destruct (fractal.sector h) as [| p | p]; [lia | | reflexivity].
  do 3 (destruct p as [p | p |]; try lia; try reflexivity).
Qed.

(** C7, as the code has it.  For every finite hue [h >= 0] (a valid
    binary64 value that is not below zero and not [+Inf]) and every
    saturation and value, the colour returned by [HSVToRGBA] has alpha 255.
    It does not hold for every hue: when the sector index
    [int(Mod(Floor(h/60), 6))] falls outside 0..5, as it does for negative
    hues such as -60, the switch selects nothing and the result is the zero
    colour, alpha 0. *)
Theorem HSVToRGBA_opaque :
  forall h s v : float64,
    valid_binary prec emax h = true ->
    SFleb (S754_zero false) h = true ->
    h <> S754_infinity false ->
    fractal.A (fractal.HSVToRGBA h s v) = 255.
Proof.
  intros h s v Hv Hle Hinf. apply HSVToRGBA_sector, sector_bounds; assumption.
Qed.

Lemma HSVToRGBA_opaque_witness :
  valid_binary prec emax (float64_of_int 120) = true /\
  SFleb (S754_zero false) (float64_of_int 120) = true /\
  float64_of_int 120 <> S754_infinity false /\
  fractal.A (fractal.HSVToRGBA (float64_of_int 120) (f64 1 (-1)) (float64_of_int 1)) = 255.
Proof.
  assert (Hv : valid_binary prec emax (float64_of_int 120) = true) by reflexivity.
  assert (Hle : SFleb (S754_zero false) (float64_of_int 120) = true) by reflexivity.
  assert (Hinf : float64_of_int 120 <> S754_infinity false) by discriminate.
  split; [exact Hv | split; [exact Hle | split; [exact Hinf |]]].
  exact (HSVToRGBA_opaque (float64_of_int 120) (f64 1 (-1)) (float64_of_int 1) Hv Hle Hinf).
Defined.

(** C7, as stated, fails: at hue -60 with saturation 1 and value 1 the
    sector index is -1 and the alpha channel of the result is 0. *)
Lemma HSVToRGBA_opaque_counterexample :
  fractal.sector (float64_of_int (-60)) = -1 /\
  fractal.HSVToRGBA (float64_of_int (-60)) (float64_of_int 1) (float64_of_int 1) =
    fractal.mkRGBA 0 0 0 0 /\
  fractal.A (fractal.HSVToRGBA (float64_of_int (-60)) (float64_of_int 1)
                               (float64_of_int 1)) <> 255.
Proof.
  split; [vm_compute; reflexivity |]. split; [vm_compute; reflexivity |].
  vm_compute. discriminate.
Qed.
